(** * The NO2 time-series cells of [Working_with_CloudOptimizedGeoTIFF.ipynb]

    A shallow embedding of the cells that fetch one raster crop per file
    through a thread pool, reduce each crop to a statistic and unpack the
    collected pairs for plotting:

    - [_url], [_stats], [fetch_bbox], [_filter_futures] and the
      [ThreadPoolExecutor] cells are translated from the notebook;
    - [requests.get], [numpy.load], float formatting and the
      floating-point reductions of [numpy.ma] belong to libraries and to
      the remote service: they are parameters ([Runtime], [network]);
    - Python exceptions are values of [exn], fallible code lives in
      [result], and code that talks to the network in [traced], which
      also records the requests that were sent. *)

From stdpp Require Import base numbers list strings gmap sorting.
From Stdlib Require Import Strings.Ascii Strings.Byte QArith.

Open Scope Z_scope.

(** ** Exceptions and fallible computations *)

(** The exception classes the cells can meet.  [KeyboardInterrupt] stands
    for the [BaseException]s that are not [Exception]s: the handler of
    [_filter_futures] is [except Exception], which lets them through. *)
Inductive exn : Type :=
  | NameError (name : string)
  | TypeError
  | IndexError
  | ValueError
  | RequestException
  | KeyboardInterrupt.

Definition is_Exception (e : exn) : bool :=
  match e with
  | KeyboardInterrupt => false
  | _ => true
  end.

Inductive result (A : Type) : Type :=
  | Return (a : A)
  | Raise (e : exn).
Arguments Return {A} a.
Arguments Raise {A} e.

Definition rbind {A B} (m : result A) (k : A → result B) : result B :=
  match m with
  | Return a => k a
  | Raise e => Raise e
  end.

Definition returned {A} (m : result A) : option A :=
  match m with
  | Return a => Some a
  | Raise _ => None
  end.

Definition raises {A} (m : result A) : Prop := ∃ e, m = Raise e.

(** ** HTTP requests and the computations that send them *)

Inductive param_value : Type :=
  | PStr (s : string)
  | PInt (n : Z).

Inductive http_method : Type := GET | POST.

Record Request : Type := mkRequest {
  req_method : http_method;
  req_url : string;
  req_params : list (string * param_value)
}.

Record Response : Type := mkResponse {
  status_code : Z;
  content : list byte
}.

(** What the remote service answers to a request: a response, whatever its
    status, or nothing when the transport fails. *)
Definition network : Type := Request → option Response.

(** A computation together with the requests it sent, oldest first. *)
Definition traced (A : Type) : Type := list Request * result A.

Definition tret {A} (a : A) : traced A := ([], Return a).

Definition tlift {A} (m : result A) : traced A := ([], m).

Definition tbind {A B} (m : traced A) (k : A → traced B) : traced B :=
  match m with
  | (sent, Return a) => let '(sent', r) := k a in (sent ++ sent', r)
  | (sent, Raise e) => (sent, Raise e)
  end.

Notation "'let!' x ':=' m 'in' k" := (tbind m (λ x, k))
  (at level 10, x name, m at level 100, k at level 200).

(** [requests.get(url, params=params)]: sends one request; a transport
    failure raises, a response of any status is returned. *)
Definition requests_get (net : network) (url : string)
    (params : list (string * param_value)) : traced Response :=
  let req := mkRequest GET url params in
  ([req], match net req with
          | Some r => Return r
          | None => Raise RequestException
          end).

(** ** Arrays *)

(** A sample of a crop.  The crops hold float32 samples, of which the
    statistic the cells keep only uses the order: a number is represented
    by an integer.  [NaN] is no number: it equals nothing, not even 0, it
    has no place in the order, and the reductions hand it on. *)
Inductive sample : Type :=
  | Num (z : Z)
  | NaN.

#[global] Instance sample_eq_dec : EqDecision sample.
Proof. solve_decision. Defined.

(** [x <= y] on samples: false as soon as one side is [NaN]. *)
Definition sample_le (x y : sample) : Prop :=
  match x, y with
  | Num a, Num b => a ≤ b
  | _, _ => False
  end.

(** The minimum and the maximum of two samples as [ndarray.min] and
    [ndarray.max] combine them: [NaN] wins over every number. *)
Definition sample_min (x y : sample) : sample :=
  match x, y with
  | Num a, Num b => Num (Z.min a b)
  | _, _ => NaN
  end.

Definition sample_max (x y : sample) : sample :=
  match x, y with
  | Num a, Num b => Num (Z.max a b)
  | _, _ => NaN
  end.

(** An n-dimensional array: its shape and its samples in row-major order. *)
Record ndarray : Type := mkArray {
  shape : list nat;
  flat : list sample
}.

Definition size_of (sh : list nat) : nat := foldr Nat.mul 1%nat sh.

Definition wf_ndarray (a : ndarray) : Prop :=
  length (flat a) = size_of (shape a).

(** [a[0:-1]]: all but the last entry along the first axis. *)
Definition getitem_0_m1 (a : ndarray) : result ndarray :=
  match shape a with
  | [] => Raise IndexError
  | b :: rest =>
      Return (mkArray (pred b :: rest) (take (pred b * size_of rest) (flat a)))
  end.

(** [a[-1]]: the last entry along the first axis. *)
Definition getitem_m1 (a : ndarray) : result ndarray :=
  match shape a with
  | [] => Raise IndexError
  | O :: _ => Raise IndexError
  | S b :: rest =>
      Return (mkArray rest (take (size_of rest) (drop (b * size_of rest) (flat a))))
  end.

(** [a == 0], elementwise. *)
Definition eq_zero (a : ndarray) : list bool :=
  (λ v, bool_decide (v = Num 0)) <$> flat a.

(** A masked array of [numpy.ma]: a [true] in [ma_mask] hides the sample
    at the same position. *)
Record masked_array : Type := mkMasked {
  ma_shape : list nat;
  ma_data : list sample;
  ma_mask : list bool
}.

(** [numpy.ma.array(data)]: nothing is masked. *)
Definition ma_array (data : ndarray) : masked_array :=
  mkMasked (shape data) (flat data) (replicate (length (flat data)) false).

(** [arr.mask = m] for an array [m] of booleans.  [numpy.ma] assigns
    through [mask.flat]: the values of [m] are taken in row-major order
    and repeated as often as needed; an [m] without values changes
    nothing.  For an [m] of the shape of one band this hides, in every
    band, the positions that [m] marks.  A single truth value is given
    to every position, as the list of that one value is. *)
Definition set_mask (arr : masked_array) (m : list bool) : masked_array :=
  match m with
  | [] => arr
  | _ =>
      mkMasked (ma_shape arr) (ma_data arr)
        ((λ i, default false (m !! (i mod length m)%nat)) <$>
           seq 0 (length (ma_data arr)))
  end.

(** The samples that are not masked. *)
Fixpoint compressed (data : list sample) (mask : list bool) : list sample :=
  match data, mask with
  | x :: data', b :: mask' =>
      if b then compressed data' mask' else x :: compressed data' mask'
  | _, _ => []
  end.

(** [arr.min().item()] and [arr.max().item()]: a reduction over an array
    without samples raises; when every sample is masked the reduction is
    the constant [masked], whose [item()] is 0.  Otherwise the masked
    samples are filled with the neutral value of the reduction, which
    then runs over the whole array: a [NaN] that is not masked makes the
    result [NaN], one that is masked does not count. *)
Definition ma_reduce (op : sample → sample → sample) (arr : masked_array)
    : result sample :=
  match ma_data arr with
  | [] => Raise ValueError
  | _ =>
      match compressed (ma_data arr) (ma_mask arr) with
      | [] => Return (Num 0)
      | x :: xs => Return (foldl op x xs)
      end
  end.

Definition ma_min : masked_array → result sample := ma_reduce sample_min.
Definition ma_max : masked_array → result sample := ma_reduce sample_max.

(** The sample [x] of [data] at position [p] is valid under [mask]: the
    value of [mask] at [p], counted round the samples of [mask], is not 0.
    For a [mask] that is one band this is the value at the same row and
    column. *)
Definition valid_sample (data mask : ndarray) (p : nat) (x : sample) : Prop :=
  flat data !! p = Some x ∧
  ∃ m, flat mask !! (p mod length (flat mask))%nat = Some m ∧ m ≠ Num 0.

(** ** What the cells take from their libraries *)

Class Runtime : Type := mkRuntime {
  (** [str] of a float, as an f-string prints it *)
  float_repr : Q → string;
  (** [numpy.load(BytesIO(content))]; [None] when the payload is not an
      array, in which case [numpy.load] raises *)
  numpy_decode : list byte → option ndarray;
  (** [arr.mean().item()] and [arr.std().item()] of a masked array with
      at least one sample: floating-point reductions *)
  ma_mean : masked_array → Q;
  ma_std : masked_array → Q
}.

Definition numpy_load `{RT : Runtime} (content : list byte) : result ndarray :=
  match numpy_decode content with
  | Some a => Return a
  | None => Raise ValueError
  end.

(** ** The kernel namespace *)

(** The Python objects that the model tells apart: arrays, floats as the
    four numbers unpacked from [bounds], strings, and lists or tuples of
    objects. *)
#[local] Set Warnings "-register-all".
Inductive pyobj : Type :=
  | PyNdarray (a : ndarray)
  | PyFloat (x : Q)
  | PyStr (s : string)
  | PySeq (items : list pyobj).

Coercion PyNdarray : ndarray >-> pyobj.

(** Reading a global name. *)
Definition load_global (g : gmap string pyobj) (name : string) : result pyobj :=
  match g !! name with
  | Some v => Return v
  | None => Raise (NameError name)
  end.

(** The last character of a string, as a string. *)
Fixpoint str_last (s : string) : option string :=
  match s with
  | EmptyString => None
  | String c EmptyString => Some s
  | String _ s' => str_last s'
  end.

(** [obj[-1]]: the last entry of an array along its first axis, the last
    character of a string, the last item of a list or a tuple; a float is
    not subscriptable. *)
Definition subscript_m1 (obj : pyobj) : result pyobj :=
  match obj with
  | PyNdarray a => rbind (getitem_m1 a) (λ last, Return (PyNdarray last))
  | PyFloat _ => Raise TypeError
  | PyStr s =>
      match str_last s with
      | Some c => Return (PyStr c)
      | None => Raise IndexError
      end
  | PySeq items =>
      match last items with
      | Some item => Return item
      | None => Raise IndexError
      end
  end.

(** [obj == 0] as [arr.mask] is given it: elementwise for an array; for
    any other object one truth value, true for the number 0 only, which
    the assignment spreads over the whole mask. *)
Definition obj_eq_zero (obj : pyobj) : list bool :=
  match obj with
  | PyNdarray a => eq_zero a
  | PyFloat x => [Qeq_bool x 0]
  | PyStr _ | PySeq _ => [false]
  end.

(** The four-number window [xmin, ymin, xmax, ymax = bounds]. *)
Record Window : Type := mkWindow {
  xmin : Q;
  ymin : Q;
  xmax : Q;
  ymax : Q
}.

(** The spec's well-formed window; the cells never test it. *)
Definition valid_window (w : Window) : Prop :=
  (xmin w <= xmax w)%Q ∧ (ymin w <= ymax w)%Q.

(** [bounds = featureBounds(geojson)] for the polygon of the notebook. *)
Definition bounds : Window :=
  mkWindow (-741796875 # 10000000) (4518978009667531 # 100000000000000)
           (-73092041015625 # 1000000000000) (4600459325574482 # 100000000000000).

(** The names a fresh kernel binds when the cells run from top to bottom
    (imports, assignments, definitions and loop variables), in order of
    first binding.  [%pylab inline] binds the modules listed after
    [basemap_to_tiles] and the public names of [numpy] and
    [matplotlib.pylab], which export no [mask]. *)
Definition notebook_names : list string :=
  ["os"; "json"; "urllib"; "BytesIO"; "partial"; "futures"; "requests";
   "boto3_session"; "reshape_as_image"; "featureBounds"; "tqdm"; "Map";
   "basemaps"; "TileLayer"; "basemap_to_tiles"; "numpy"; "np"; "matplotlib";
   "pylab"; "mlab"; "pyplot"; "plt"; "display"; "figsize"; "getfigs";
   "titiler_endpoint"; "geojson"; "bounds"; "session"; "client"; "bucket";
   "list_objects"; "files"; "files_2019"; "files_Oct5"; "_url"; "r"; "m";
   "aod_layer"; "_stats"; "xmin"; "ymin"; "xmax"; "ymax"; "fetch_bbox";
   "_filter_futures"; "files_15"; "executor"; "future_work"; "f";
   "values"; "dates"; "fig"; "ax1"]%string.

(** The part of that namespace whose objects the model represents. *)
Definition notebook_globals : gmap string pyobj :=
  <["xmin" := PyFloat (xmin bounds)]>
  (<["ymin" := PyFloat (ymin bounds)]>
  (<["xmax" := PyFloat (xmax bounds)]>
  (<["ymax" := PyFloat (ymax bounds)]> ∅)))%string.

(** ** The cells *)

Definition titiler_endpoint : string := "https://api.cogeo.xyz".

(** [str.split(sep)] for a one-character separator. *)
Fixpoint str_split (sep : ascii) (s : string) : list string :=
  match s with
  | EmptyString => [EmptyString]
  | String c s' =>
      if decide (c = sep) then EmptyString :: str_split sep s'
      else match str_split sep s' with
           | [] => [String c EmptyString]
           | part :: parts => String c part :: parts
           end
  end.

(** [l[i]] for a non-negative [i]. *)
Definition getitem {A} (l : list A) (i : nat) : result A :=
  match l !! i with
  | Some x => Return x
  | None => Raise IndexError
  end.

Definition _url (src_path : string) : string :=
  "s3://omi-no2-nasa/" +:+ src_path.

(** The label of a file, when it has one: the third of the parts that
    its underscores separate. *)
Definition label_of (file : string) : option string :=
  str_split "_"%char file !! 2%nat.

Section Cells.
Context `{RT : Runtime}.

(** [_stats(data, mask)]: minimum, maximum, mean and standard deviation of
    the samples of [data] at which [mask] is not 0. *)
Definition _stats (data : ndarray) (mask : pyobj)
    : result (sample * sample * Q * Q) :=
  let arr := ma_array data in
  let arr := set_mask arr (obj_eq_zero mask) in
  rbind (ma_min arr) (λ lo,
  rbind (ma_max arr) (λ hi,
  Return (lo, hi, ma_mean arr, ma_std arr))).

(** The URL and the query parameters [fetch_bbox] builds. *)
Definition crop_url (w : Window) : string :=
  titiler_endpoint +:+ "cog/crop/" +:+ float_repr (xmin w) +:+ "," +:+
  float_repr (ymin w) +:+ "," +:+ float_repr (xmax w) +:+ "," +:+
  float_repr (ymax w) +:+ ".npy".

Definition crop_params (file : string) : list (string * param_value) :=
  [("url", PStr (_url file)); ("bidx", PStr "1"); ("max_size", PInt 128)]%string.

(** The request of the call on [file]. *)
Definition crop_request (w : Window) (file : string) : Request :=
  mkRequest GET (crop_url w) (crop_params file).

(** [fetch_bbox(file)], run in the namespace [g] with the window [w]
    unpacked from [bounds], against the network [net]. *)
Definition fetch_bbox (g : gmap string pyobj) (w : Window) (net : network)
    (file : string) : traced (sample * string) :=
  let url := crop_url w in
  let params := crop_params file in
  let! r := requests_get net url params in
  let! data := tlift (numpy_load (content r)) in
  let! values := tlift (getitem_0_m1 data) in
  let! mask := tlift (load_global g "mask") in
  let! last := tlift (subscript_m1 mask) in
  let! s := tlift (_stats values last) in
  let! label := tlift (getitem (str_split "_"%char file) 2) in
  tret (s.1.1.2, label).

End Cells.

(** [_filter_futures(tasks)], drained by [list(...)]: the results of the
    futures that returned, in the order of [tasks]; a future that raised
    an [Exception] is passed over, any other exception leaves the
    generator. *)
Fixpoint _filter_futures {A} (tasks : list (result A)) : result (list A) :=
  match tasks with
  | [] => Return []
  | future :: tasks' =>
      match future with
      | Return a => rbind (_filter_futures tasks') (λ rest, Return (a :: rest))
      | Raise e => if is_Exception e then _filter_futures tasks' else Raise e
      end
  end.

(** [values, dates = zip( *pairs )], the pairs being given to [zip] as
    separate arguments: [zip] of no argument yields nothing and the
    unpacking into two names raises; otherwise it yields the two columns. *)
Definition unpack_columns {A B} (pairs : list (A * B)) : result (list A * list B) :=
  match pairs with
  | [] => Raise ValueError
  | _ => Return (pairs.*1, pairs.*2)
  end.

(** ** The thread pool

    [futures.ThreadPoolExecutor(max_workers=n)] as a transition system,
    after [concurrent/futures/thread.py] of Python 3.7, the version of the
    notebook: [submit] creates a pending future, puts its work item on a
    FIFO queue and, in [_adjust_thread_count], starts a new thread while
    fewer than [max_workers] exist; a thread that has nothing to do takes
    the oldest work item ([_worker]); the call runs and its outcome, a
    value or an exception, is stored in the future ([_WorkItem.run]). *)
Module ThreadPool.

Inductive fstate (A : Type) : Type :=
  | Pending
  | Running
  | Finished (r : result A).
Arguments Pending {A}.
Arguments Running {A}.
Arguments Finished {A} r.

Inductive worker : Type :=
  | Idle
  | Busy (i : nat).

Definition is_busy (t : worker) : bool :=
  match t with
  | Idle => false
  | Busy _ => true
  end.

Record pool (A : Type) : Type := mkPool {
  (** the files the list comprehension has not submitted yet *)
  todo : list string;
  (** [future_work]: every future with the argument of its call *)
  futures : list (string * fstate A);
  (** the work queue: positions in [futures], oldest first *)
  queue : list nat;
  (** the threads started so far *)
  workers : list worker;
  (** the positions of the finished futures, in order of completion *)
  completed : list nat;
  (** the requests sent by the calls that finished *)
  sent : list Request
}.
Arguments mkPool {A}.
Arguments todo {A}.
Arguments futures {A}.
Arguments queue {A}.
Arguments workers {A}.
Arguments completed {A}.
Arguments sent {A}.

Definition is_finished {A} (s : fstate A) : bool :=
  match s with
  | Finished _ => true
  | _ => false
  end.

Definition outcome {A} (s : fstate A) : option (result A) :=
  match s with
  | Finished r => Some r
  | _ => None
  end.

Section Pool.
Context {A : Type}.
(** the bound given to the executor, and the call behind the future at
    position [i] with argument [file] *)
Context (max_workers : nat) (call : nat → string → traced A).

Definition init (files : list string) : pool A :=
  mkPool files [] [] [] [] [].

Definition spawn (ws : list worker) : list worker :=
  if decide (length ws < max_workers)%nat then ws ++ [Idle] else ws.

Inductive step : pool A → pool A → Prop :=
  | step_submit σ file files' :
      todo σ = file :: files' →
      step σ (mkPool files'
                (futures σ ++ [(file, Pending)])
                (queue σ ++ [length (futures σ)])
                (spawn (workers σ))
                (completed σ) (sent σ))
  | step_take σ t i q file :
      workers σ !! t = Some Idle →
      queue σ = i :: q →
      futures σ !! i = Some (file, Pending) →
      step σ (mkPool (todo σ)
                (<[i := (file, Running)]> (futures σ))
                q
                (<[t := Busy i]> (workers σ))
                (completed σ) (sent σ))
  | step_finish σ t i file :
      workers σ !! t = Some (Busy i) →
      futures σ !! i = Some (file, Running) →
      step σ (mkPool (todo σ)
                (<[i := (file, Finished (call i file).2)]> (futures σ))
                (queue σ)
                (<[t := Idle]> (workers σ))
                (completed σ ++ [i])
                (sent σ ++ (call i file).1)).

Definition reachable (files : list string) (σ : pool A) : Prop :=
  rtc step (init files) σ.

(** The calls being executed: one per busy thread. *)
Definition in_flight (σ : pool A) : nat :=
  length (filter (λ t, is_busy t = true) (workers σ)).

(** Every file was submitted and every future holds its outcome: the
    state in which the [with] block is left. *)
Definition all_done (σ : pool A) : Prop :=
  todo σ = [] ∧ Forall (λ p, is_finished p.2 = true) (futures σ).

(** What [future.result()] gives for each future: its value, or the
    exception it re-raises; [None] for a future that is not finished. *)
Definition results (σ : pool A) : list (option (result A)) :=
  (λ p, outcome p.2) <$> futures σ.

(** Invariants of the runs. *)

(** The futures of a run stand for a prefix of the files, in order, and a
    finished future holds the outcome of its own call. *)
Definition results_inv (files : list string) (σ : pool A) : Prop :=
  (futures σ).*1 ++ todo σ = files ∧
  ∀ i file r, futures σ !! i = Some (file, Finished r) → r = (call i file).2.

(** The requests of the future at position [i]: those of its call once it
    is finished, none before. *)
Definition requests_of (i : nat) (p : string * fstate A) : list Request :=
  if is_finished p.2 then (call i p.1).1 else [].

(** The completions of the future at position [i]: one once it is
    finished. *)
Definition completions_of (i : nat) (p : string * fstate A) : list nat :=
  if is_finished p.2 then [i] else [].

(** What a future still costs: a step to take it and a step to finish
    it.  [remaining] counts the steps a run has left. *)
Definition weight (p : string * fstate A) : nat :=
  match p.2 with
  | Pending => 2
  | Running => 1
  | Finished _ => 0
  end.

Definition remaining (σ : pool A) : nat :=
  (3 * length (todo σ) + sum_list_with weight (futures σ))%nat.

(** Threads, queue and futures agree: a busy thread runs a running
    future, each running future has its one thread, the queue holds the
    pending futures, once each, and a pool with futures has threads. *)
Record consistent (σ : pool A) : Prop := mkConsistent {
  busy_running : ∀ t i, workers σ !! t = Some (Busy i) →
                 ∃ file, futures σ !! i = Some (file, Running);
  running_busy : ∀ i file, futures σ !! i = Some (file, Running) →
                 ∃ t, workers σ !! t = Some (Busy i);
  busy_inj : ∀ t t' i, workers σ !! t = Some (Busy i) →
             workers σ !! t' = Some (Busy i) → t = t';
  queue_pending : ∀ i, i ∈ queue σ ↔
                  ∃ file, futures σ !! i = Some (file, Pending);
  queue_nodup : NoDup (queue σ);
  workers_started : futures σ ≠ [] → workers σ ≠ []
}.

End Pool.
End ThreadPool.

(** ** The time-series cells *)

Section TimeSeries.
Context `{RT : Runtime}.

(** The call behind the future at position [i]: [fetch_bbox] on the file
    submitted there.  [net i] is the network as that call meets it. *)
Definition work (g : gmap string pyobj) (w : Window) (net : nat → network)
    (i : nat) (file : string) : traced (sample * string) :=
  fetch_bbox g w (net i) file.

(** A run of one cell: the executor is given [max_workers], every file is
    submitted, the [with] block is left when every future is finished
    (the loop over [as_completed] only advances the progress bar), and
    the results are drained in the order of [future_work] and unpacked.
    [sent] are the requests of the run, [out] what the cell leaves in
    [values, dates], or the exception it raises. *)
Definition cell_run (max_workers : nat) (g : gmap string pyobj) (w : Window)
    (net : nat → network) (files : list string)
    (sent : list Request) (out : result (list sample * list string)) : Prop :=
  ∃ σ tasks,
    ThreadPool.reachable max_workers (work g w net) files σ ∧
    ThreadPool.all_done σ ∧
    ThreadPool.results σ = Some <$> tasks ∧
    sent = ThreadPool.sent σ ∧
    out = rbind (_filter_futures tasks) unpack_columns.

(** The same cell with the calls run one after the other in the order of
    submission. *)
Definition future_work (g : gmap string pyobj) (w : Window) (net : nat → network)
    (files : list string) : list (traced (sample * string)) :=
  imap (work g w net) files.

Definition collected (g : gmap string pyobj) (w : Window) (net : nat → network)
    (files : list string) : result (list (sample * string)) :=
  _filter_futures (future_work g w net files).*2.

Definition time_series (g : gmap string pyobj) (w : Window) (net : nat → network)
    (files : list string) : traced (list sample * list string) :=
  (concat (future_work g w net files).*1,
   rbind (collected g w net files) unpack_columns).

End TimeSeries.

(** The first cell runs [time_series] on [files_15] with 10 workers, the
    second on [files] with 50. *)
Definition max_workers_files_15 : nat := 10.
Definition max_workers_files : nat := 50.

(** ** A stub of the libraries, to run the cells on examples *)

(** How Python prints the four numbers of [bounds]. *)
Definition stub_float_repr (x : Q) : string :=
  if Qeq_bool x (xmin bounds) then "-74.1796875"
  else if Qeq_bool x (ymin bounds) then "45.18978009667531"
  else if Qeq_bool x (xmax bounds) then "-73.092041015625"
  else if Qeq_bool x (ymax bounds) then "46.00459325574482"
  else "nan".

(** A payload of [2 * n] bytes decodes to an array of shape [2, 1, n]:
    one band of values and the mask band. *)
Definition stub_decode (payload : list byte) : option ndarray :=
  let n := (length payload / 2)%nat in
  if decide (payload ≠ [] ∧ length payload = (2 * n)%nat)
  then Some (mkArray [2; 1; n]%nat ((λ b, Num (Z.of_N (Byte.to_N b))) <$> payload))
  else None.

Definition stub_runtime : Runtime :=
  mkRuntime stub_float_repr stub_decode (λ _, 0%Q) (λ _, 0%Q).

(** A well-formed file name of the bucket. *)
Definition file_2019 : string := "OMI-Aura_L3-OMNO2d_2019m0115_v003-2019m0116t183701.he5.tif".
Definition file_2020 : string := "OMI-Aura_L3-OMNO2d_2020m0115_v003-2020m0116t183701.he5.tif".

(** A key of the 16th of a month. *)
Definition file_2019_16 : string := "OMI-Aura_L3-OMNO2d_2019m0116_v003-2019m0117t183701.he5.tif".

(** Networks: one that answers every request with a crop of one sample,
    of value 7 and valid; one that is down. *)
Definition net_ok : nat → network := λ _ _, Some (mkResponse 200 [x07; x01]%byte).
Definition net_down : nat → network := λ _ _, None.

(** A network that is down for the call at position 1 only. *)
Definition net_second_down : nat → network :=
  λ i req, if decide (i = 1%nat) then None else net_ok i req.

(** A network that answers like [net_ok], with status 404. *)
Definition net_404 : nat → network := λ _ _, Some (mkResponse 404 [x07; x01]%byte).

(** A stub whose payloads decode to a single band, of shape [1, 1, n]. *)
Definition one_band_runtime : Runtime :=
  mkRuntime stub_float_repr
    (λ payload, Some (mkArray [1; 1; length payload]%nat
                        ((λ b, Num (Z.of_N (Byte.to_N b))) <$> payload)))
    (λ _, 0%Q) (λ _, 0%Q).

(** A key without underscores. *)
Definition file_unlabelled : string := "readme.tif".

(** A namespace in which an earlier run has left an array under [mask]. *)
Definition globals_with_mask : gmap string pyobj :=
  <["mask" := PyNdarray (mkArray [1; 1; 1]%nat [Num 1])]> notebook_globals.

(** A namespace in which [mask] is the list [[1.0]]. *)
Definition globals_with_list_mask : gmap string pyobj :=
  <["mask" := PySeq [PyFloat 1]]> notebook_globals.

(** A network whose crops hold two samples, 7 and 9, of which the mask
    band keeps the first and rejects the second. *)
Definition net_half_valid : nat → network :=
  λ _ _, Some (mkResponse 200 [x07; x09; x01; x00]%byte).

(** The payload of [net_half_valid], decoded. *)
Definition crop_7_9 : ndarray := mkArray [2; 1; 2]%nat [Num 7; Num 9; Num 1; Num 0].

(** [bounds] with its two longitudes exchanged: a window with
    [xmin > xmax]. *)
Definition swapped_bounds : Window :=
  mkWindow (xmax bounds) (ymin bounds) (xmin bounds) (ymax bounds).

(** A state of the first cell run on one file: the file was submitted and
    a thread is running its call. *)
Definition pool_one_running : ThreadPool.pool (sample * string) :=
  ThreadPool.mkPool [] [(file_2019, ThreadPool.Running)] []
    [ThreadPool.Busy 0] [] [].

(** The end of that run in a fresh kernel: the call has raised and its
    request is recorded. *)
Definition pool_one_done : ThreadPool.pool (sample * string) :=
  ThreadPool.mkPool []
    [(file_2019, ThreadPool.Finished (Raise (NameError "mask")))] []
    [ThreadPool.Idle] [0%nat]
    [crop_request (RT := stub_runtime) bounds file_2019].

(** An executor of one worker with two files: the first call is running
    and the second file has not been submitted; then the second file is
    submitted and waits. *)
Definition pool_full : ThreadPool.pool (sample * string) :=
  ThreadPool.mkPool [file_2020] [(file_2019, ThreadPool.Running)] []
    [ThreadPool.Busy 0] [] [].

Definition pool_full_waiting : ThreadPool.pool (sample * string) :=
  ThreadPool.mkPool []
    [(file_2019, ThreadPool.Running); (file_2020, ThreadPool.Pending)]
    [1%nat] [ThreadPool.Busy 0] [] [].

(** ** The parts of a URL *)

(** [strip_prefix p s]: what follows [p] in [s], when [s] starts with [p]. *)
Fixpoint strip_prefix (p s : string) : option string :=
  match p, s with
  | EmptyString, _ => Some s
  | String a p', String b s' =>
      if decide (a = b) then strip_prefix p' s' else None
  | String _ _, EmptyString => None
  end.

(** [s] cut before its first slash. *)
Fixpoint until_slash (s : string) : string * string :=
  match s with
  | EmptyString => (EmptyString, EmptyString)
  | String c s' =>
      if decide (c = "/"%char) then (EmptyString, s)
      else let '(host, path) := until_slash s' in (String c host, path)
  end.

(** The host and the path of an [https] URL: the host runs up to the
    first slash after the scheme, the path starts there. *)
Definition url_host (url : string) : option string :=
  (λ rest, (until_slash rest).1) <$> strip_prefix "https://" url.

Definition url_path (url : string) : option string :=
  (λ rest, (until_slash rest).2) <$> strip_prefix "https://" url.

(** The URLs of the two other requests of the notebook,
    [f"{titiler_endpoint}/cog/metadata"] and
    [f"{titiler_endpoint}/cog/tilejson.json"]. *)
Definition metadata_url : string := titiler_endpoint +:+ "/cog/metadata".
Definition tilejson_url : string := titiler_endpoint +:+ "/cog/tilejson.json".

(** The path of the crop endpoint as the notebook documents it:
    [{endpoint}/cog/crop/{minx},{miny},{maxx},{maxy}.{format}]. *)
Definition documented_crop_path `{RT : Runtime} (w : Window) : string :=
  "/cog/crop/" +:+ float_repr (xmin w) +:+ "," +:+
  float_repr (ymin w) +:+ "," +:+ float_repr (xmax w) +:+ "," +:+
  float_repr (ymax w) +:+ ".npy".

(** ** The sort the specification expects

    The pairs sorted by label, as the specification has the caller do
    before plotting; the cells have no such step. *)
Definition label_le (p q : sample * string) : Prop := String.leb p.2 q.2 = true.

#[global] Instance label_le_dec : RelDecision label_le :=
  λ p q, decide (String.leb p.2 q.2 = true).

Definition spec_sorted_by_label (pairs : list (sample * string))
    : list (sample * string) :=
  merge_sort label_le pairs.

(** Labels in chronological order: no label is followed by one that
    precedes it as a string, which for the labels [{YEAR}m{MONTH}{DAY}]
    of the bucket is the order of the days. *)
Definition chronological (labels : list string) : Prop :=
  StronglySorted (λ a b, String.leb a b = true) labels.

(** ** The cells that list and choose the files *)

(** Subscripting a dict: the value under the key, or [KeyError]. *)
Inductive keyed (A : Type) : Type :=
  | Got (a : A)
  | KeyError (key : string).
Arguments Got {A} a.
Arguments KeyError {A} key.

Definition dict_getitem {V} (d : gmap string V) (key : string) : keyed V :=
  match d !! key with
  | Some v => Got v
  | None => KeyError key
  end.

(** One object of a listing, as the dict of its string-valued fields, and
    one page of [list_objects_v2], whose ["Contents"] is absent when the
    page lists nothing. *)
Abbreviation s3_object := (gmap string string).
Abbreviation s3_page := (gmap string (list s3_object)).

(** [subset.get("Contents", [])]. *)
Definition page_contents (subset : s3_page) : list s3_object :=
  default [] (subset !! "Contents"%string).

(** [[r["Key"] for r in files]]. *)
Fixpoint object_keys (files : list s3_object) : keyed (list string) :=
  match files with
  | [] => Got []
  | r :: files' =>
      match dict_getitem r "Key" with
      | KeyError key => KeyError key
      | Got key =>
          match object_keys files' with
          | Got keys => Got (key :: keys)
          | KeyError key' => KeyError key'
          end
      end
  end.

Definition bucket : string := "omi-no2-nasa".

(** [list_objects(bucket, prefix)]; [paginate bucket prefix] are the pages
    that [paginator.paginate(Bucket=bucket, Prefix=prefix)] yields. *)
Definition list_objects (paginate : string → string → list s3_page)
    (bucket prefix : string) : keyed (list string) :=
  let files :=
    foldl (λ files subset, files ++ page_contents subset) []
      (paginate bucket prefix) in
  object_keys files.

(** [s[a:b]] for [0 ≤ a ≤ b]: the characters of [s] from position [a] up
    to, not including, position [b], as far as [s] has them. *)
Definition str_slice (a b : nat) (s : string) : string :=
  String.substring a (b - a) s.

(** [list(filter(p, l))] for a [p] that may raise. *)
Fixpoint py_filter {A} (p : A → result bool) (l : list A) : result (list A) :=
  match l with
  | [] => Return []
  | x :: l' =>
      rbind (p x) (λ keep,
      rbind (py_filter p l') (λ rest,
      Return (if keep then x :: rest else rest)))
  end.

(** [x.split("_")[2]], the date token of a key. *)
Definition date_token (x : string) : result string :=
  getitem (str_split "_"%char x) 2.

(** The three lambdas: [x.split("_")[2][0:4] == "2019"],
    [(x.split("_")[2][5:7] == "10") & (x.split("_")[2][7:9] == "05")] and
    [x.split("_")[2][7:9] == "15"]. *)
Definition in_2019 (x : string) : result bool :=
  rbind (date_token x) (λ d,
  Return (bool_decide (str_slice 0 4 d = "2019"%string))).

Definition on_Oct5 (x : string) : result bool :=
  rbind (date_token x) (λ d,
  rbind (date_token x) (λ d',
  Return (bool_decide (str_slice 5 7 d = "10"%string) &&
          bool_decide (str_slice 7 9 d' = "05"%string)))).

Definition on_15 (x : string) : result bool :=
  rbind (date_token x) (λ d,
  Return (bool_decide (str_slice 7 9 d = "15"%string))).

Definition files_2019 (files : list string) : result (list string) :=
  py_filter in_2019 files.

Definition files_Oct5 (files : list string) : result (list string) :=
  py_filter on_Oct5 files.

Definition files_15 (files : list string) : result (list string) :=
  py_filter on_15 files.

(** The characters [a] to [b] of the date token of a key, when the key has
    one. *)
Definition token_slice (a b : nat) (x : string) : option string :=
  str_slice a b <$> label_of x.

(** The structure of a key as the notebook gives it,
    ["OMI-Aura_L3-OMNO2d_{YEAR}m{MONTH:02}{DAY:02}..."], the date token
    being closed by an underscore. *)
Definition omi_key (year month day rest : string) : string :=
  "OMI-Aura_L3-OMNO2d_" +:+ year +:+ "m" +:+ month +:+ day +:+ "_" +:+ rest.

(** [c] occurs in [s]. *)
Fixpoint occurs (c : ascii) (s : string) : bool :=
  match s with
  | EmptyString => false
  | String c' s' => bool_decide (c' = c) || occurs c s'
  end.

(** ** The cells of [Working_with_MosaicJSON.ipynb] that choose and read
    the files *)

(** [[f(x) for x in l]] for an [f] that may raise. *)
Fixpoint py_map {A B} (f : A → result B) (l : list A) : result (list B) :=
  match l with
  | [] => Return []
  | x :: l' =>
      rbind (f x) (λ y,
      rbind (py_map f l') (λ rest, Return (y :: rest)))
  end.

Module Mosaic.

(** The dict built for each link. *)
Record meta : Type := mkMeta {
  date : string;
  tags : list string;
  path : string;
  sceneid : string;
  preview : string;
  event : string
}.

#[global] Instance meta_eq_dec : EqDecision meta.
Proof. solve_decision. Defined.

(** [l.split("/")[i]]. *)
Definition part (l : string) (i : nat) : result string :=
  getitem (str_split "/"%char l) i.

(** [dict(date=l.split("/")[6], tags=[l.split("/")[5]], path=l,
    sceneid=l.split("/")[7], preview=f"...{l.split('/')[7]}&f=jpeg",
    event=l.split("/")[4])], the arguments in the order they are
    written. *)
Definition file_meta (l : string) : result meta :=
  rbind (part l 6) (λ d,
  rbind (part l 5) (λ t,
  rbind (part l 7) (λ s,
  rbind (part l 7) (λ s',
  rbind (part l 4) (λ e,
  Return (mkMeta d [t] l s
            ("https://api.discover.digitalglobe.com/show?id=" +:+ s' +:+
             "&f=jpeg") e)))))).

(** [sorted(files, key=lambda x: x["date"])]: the sort is stable, and
    strings are compared character by character. *)
Fixpoint insert_by_date (x : meta) (l : list meta) : list meta :=
  match l with
  | [] => [x]
  | y :: l' =>
      if String.leb (date x) (date y) then x :: l
      else y :: insert_by_date x l'
  end.

Definition sorted_by_date (l : list meta) : list meta :=
  foldr insert_by_date [] l.

(** The order of the dates. *)
Definition date_le (a b : meta) : Prop := String.leb (date a) (date b) = true.

(** The cell that builds [files] from [list_file]. *)
Definition files (list_file : list string) : result (list meta) :=
  rbind (py_map file_meta list_file) (λ files, Return (sorted_by_date files)).

(** [list(filter(lambda x: x["tags"] == ["pre-event"], files))] and the
    same for ["post-event"]. *)
Definition pre_event (files : list meta) : list meta :=
  filter (λ x, tags x = ["pre-event"%string]) files.

Definition post_event (files : list meta) : list meta :=
  filter (λ x, tags x = ["post-event"%string]) files.

(** What [worker] returns: the empty dict, or a feature with the ring of
    its polygon and, as properties, the dict it was given. *)
Inductive response : Type :=
  | EmptyDict
  | Feature (ring : list (Q * Q)) (properties : meta).

(** The truth value of a dict: it is empty or not. *)
Definition truthy (r : response) : bool :=
  match r with
  | EmptyDict => false
  | Feature _ _ => true
  end.

(** [worker(meta)]; [cog_bounds path] is what reading [cog.bounds] from
    [COGReader(path)] gives, the four bounds or an exception.  The bare
    [except] catches every exception. *)
Definition worker (cog_bounds : string → result (Q * Q * Q * Q)) (m : meta)
    : response :=
  match cog_bounds (path m) with
  | Raise _ => EmptyDict
  | Return (b0, b1, b2, b3) =>
      Feature [(b0, b3); (b0, b1); (b2, b1); (b2, b3); (b0, b3)] m
  end.

(** [[r for r in executor.map(worker, post_event) if r]]: [executor.map]
    yields the results in the order of its argument. *)
Definition responses (cog_bounds : string → result (Q * Q * Q * Q))
    (post_event : list meta) : list response :=
  filter (λ r, truthy r = true) (worker cog_bounds <$> post_event).

(** The dict a response carries, if any. *)
Definition properties_of (r : response) : option meta :=
  match r with
  | EmptyDict => None
  | Feature _ m => Some m
  end.

End Mosaic.

(** * Properties *)

(** ** The thread pool *)

Section PoolFacts.
Context {A : Type} (max_workers : nat) (call : nat → string → traced A).
Import ThreadPool.

Local Abbreviation step := (step (A:=A) max_workers call).
Local Abbreviation reachable := (reachable (A:=A) max_workers call).

Lemma reachable_ind_r (files : list string) (P : pool A → Prop) :
  P (init files) →
  (∀ σ σ', reachable files σ → P σ → step σ σ' → P σ') →
  ∀ σ, reachable files σ → P σ.
Proof.
  intros Hinit Hstep σ Hσ. unfold ThreadPool.reachable in Hσ.
  revert σ Hσ.
  apply (rtc_ind_r (R := ThreadPool.step max_workers call) P (init files) Hinit).
  intros y z Hy Hyz IH. eapply Hstep; eauto.
Qed.

Lemma length_spawn (ws : list worker) :
  (length ws ≤ max_workers → length (spawn max_workers ws) ≤ max_workers)%nat.
Proof.
  unfold spawn. case_decide; rewrite ?length_app; simpl; lia.
Qed.

(** The executor never holds more threads than [max_workers]. *)
Lemma workers_bounded (files : list string) (σ : pool A) :
  reachable files σ → (length (workers σ) ≤ max_workers)%nat.
Proof.
  revert σ. apply reachable_ind_r; [simpl; lia|].
  intros σ σ' _ IH Hstep. destruct Hstep; simpl.
  - by apply length_spawn.
  - by rewrite length_insert.
  - by rewrite length_insert.
Qed.

Lemma in_flight_le_workers (σ : pool A) :
  (in_flight σ ≤ length (workers σ))%nat.
Proof. unfold in_flight. apply length_filter. Qed.

End PoolFacts.

Section PoolResults.
Context {A : Type} (max_workers : nat) (call : nat → string → traced A).
Import ThreadPool.

Local Abbreviation step := (step (A:=A) max_workers call).
Local Abbreviation reachable := (reachable (A:=A) max_workers call).

Lemma fmap_fst_insert_same {B} (l : list (string * B)) i file (s s' : B) :
  l !! i = Some (file, s) → (<[i := (file, s')]> l).*1 = l.*1.
Proof.
  intros Hi. rewrite list_fmap_insert. simpl.
  apply list_insert_id. by rewrite list_lookup_fmap, Hi.
Qed.

Lemma results_inv_reachable (files : list string) (σ : pool A) :
  reachable files σ → results_inv call files σ.
Proof.
  revert σ. apply reachable_ind_r.
  - split; [done|]. intros i file r Hi. simpl in Hi. by rewrite lookup_nil in Hi.
  - intros σ σ' _ [Hfiles Hres] Hstep. destruct Hstep as
      [σ file files' Htodo | σ t i q file Ht Hq Hi | σ t i file Ht Hi]; simpl.
    + split; simpl.
      * rewrite fmap_app, <- (assoc_L (++)). simpl. by rewrite <- Htodo.
      * intros j f r Hj. apply lookup_app_Some in Hj as [Hj | [_ Hj]].
        -- by eapply Hres.
        -- apply list_lookup_singleton_Some in Hj as [_ Hj]. congruence.
    + split; simpl.
      * by erewrite fmap_fst_insert_same.
      * intros j f r Hj. destruct (decide (i = j)) as [-> | Hne].
        -- rewrite list_lookup_insert_eq in Hj by (by eapply lookup_lt_Some).
           congruence.
        -- rewrite list_lookup_insert_ne in Hj by done. by eapply Hres.
    + split; simpl.
      * by erewrite fmap_fst_insert_same.
      * intros j f r Hj. destruct (decide (i = j)) as [-> | Hne].
        -- rewrite list_lookup_insert_eq in Hj by (by eapply lookup_lt_Some).
           congruence.
        -- rewrite list_lookup_insert_ne in Hj by done. by eapply Hres.
Qed.

(** When the [with] block is left, the future at every position holds the
    outcome of the call on the file submitted there, whatever the order in
    which the calls were run. *)
Lemma all_done_results (files : list string) (σ : pool A) :
  reachable files σ → all_done σ →
  results σ = Some <$> imap (λ i file, (call i file).2) files.
Proof.
  intros Hσ [Htodo Hfin]. apply results_inv_reachable in Hσ as [Hfiles Hres].
  rewrite Htodo, (right_id_L [] (++)) in Hfiles. subst files.
  unfold results. apply list_eq. intros i.
  rewrite !list_lookup_fmap, list_lookup_imap, list_lookup_fmap.
  destruct (futures σ !! i) as [[file s]|] eqn:Hi; simpl; [|done].
  rewrite Forall_lookup in Hfin. specialize (Hfin _ _ Hi). simpl in Hfin.
  destruct s as [| |r]; try done. simpl. by rewrite (Hres _ _ _ Hi).
Qed.

End PoolResults.

Section PoolRequests.
Context {A : Type} (max_workers : nat) (call : nat → string → traced A).
Import ThreadPool.

Local Abbreviation step := (step (A:=A) max_workers call).
Local Abbreviation reachable := (reachable (A:=A) max_workers call).

Lemma concat_imap_insert {B C} (F : nat → B → list C) (l : list B) i x y :
  l !! i = Some x → F i x = [] →
  concat (imap F (<[i := y]> l)) ≡ₚ concat (imap F l) ++ F i y.
Proof.
  revert F i. induction l as [|a l IH]; intros F i Hi Hx; [done|].
  destruct i as [|i]; simpl in *.
  - injection Hi as ->. rewrite Hx. simpl. apply Permutation_app_comm.
  - rewrite (IH (F ∘ S) i Hi Hx). simpl. by rewrite (assoc_L (++)).
Qed.

Lemma sent_inv_reachable (files : list string) (σ : pool A) :
  reachable files σ → sent σ ≡ₚ concat (imap (requests_of call) (futures σ)).
Proof.
  revert σ. apply reachable_ind_r; [done|].
  intros σ σ' _ IH Hstep. destruct Hstep as
    [σ file files' Htodo | σ t i q file Ht Hq Hi | σ t i file Ht Hi]; simpl.
  - rewrite imap_app, concat_app. simpl. by rewrite !(right_id_L [] (++)).
  - rewrite (concat_imap_insert _ _ _ _ _ Hi) by done.
    unfold requests_of at 2. simpl. by rewrite (right_id_L [] (++)).
  - rewrite (concat_imap_insert _ _ _ _ _ Hi) by done.
    unfold requests_of at 2. simpl. by rewrite IH.
Qed.

(** When the [with] block is left, the requests that were sent are those
    of the calls, one call per file, up to the order of completion. *)
Lemma all_done_sent (files : list string) (σ : pool A) :
  reachable files σ → all_done σ →
  sent σ ≡ₚ concat (imap (λ i file, (call i file).1) files).
Proof.
  intros Hσ [Htodo Hfin]. rewrite (sent_inv_reachable _ _ Hσ).
  apply results_inv_reachable in Hσ as [Hfiles _].
  rewrite Htodo, (right_id_L [] (++)) in Hfiles. subst files.
  rewrite imap_fmap.
  enough (imap (requests_of call) (futures σ) =
          imap (λ i, (λ file, (call i file).1) ∘ fst) (futures σ)) as -> by done.
  apply imap_ext. intros i [file s] Hi. simpl.
  rewrite Forall_lookup in Hfin. specialize (Hfin _ _ Hi). simpl in Hfin.
  unfold requests_of. simpl. by rewrite Hfin.
Qed.

Lemma completed_inv_reachable (files : list string) (σ : pool A) :
  reachable files σ →
  completed σ ≡ₚ concat (imap completions_of (futures σ)).
Proof.
  revert σ. apply reachable_ind_r; [done|].
  intros σ σ' _ IH Hstep. destruct Hstep as
    [σ file files' Htodo | σ t i q file Ht Hq Hi | σ t i file Ht Hi]; simpl.
  - rewrite imap_app, concat_app. simpl. by rewrite !(right_id_L [] (++)).
  - rewrite (concat_imap_insert _ _ _ _ _ Hi) by done.
    unfold completions_of at 2. simpl. by rewrite (right_id_L [] (++)).
  - rewrite (concat_imap_insert _ _ _ _ _ Hi) by done.
    unfold completions_of at 2. simpl. by rewrite IH.
Qed.

Lemma concat_imap_singleton {B} (l : list B) (k : nat) :
  concat (imap (λ i _, [(k + i)%nat]) l) = seq k (length l).
Proof.
  revert k. induction l as [|x l IH]; intros k; [done|].
  rewrite imap_cons. simpl. rewrite Nat.add_0_r. f_equal.
  rewrite <- (IH (S k)). f_equal. apply imap_ext. intros i y _. simpl.
  f_equal. lia.
Qed.

(** When the [with] block is left, every future has completed once:
    [as_completed] has yielded each of them, in some order. *)
Lemma all_done_completed (files : list string) (σ : pool A) :
  reachable files σ → all_done σ →
  completed σ ≡ₚ seq 0 (length files).
Proof.
  intros Hσ [Htodo Hfin]. rewrite (completed_inv_reachable _ _ Hσ).
  apply results_inv_reachable in Hσ as [Hfiles _].
  rewrite Htodo, (right_id_L [] (++)) in Hfiles. subst files.
  rewrite length_fmap, <- (concat_imap_singleton (futures σ) 0).
  enough (imap completions_of (futures σ) =
          imap (λ i _, [(0 + i)%nat]) (futures σ)) as -> by done.
  apply imap_ext. intros i [file s] Hi. simpl.
  rewrite Forall_lookup in Hfin. specialize (Hfin _ _ Hi). simpl in Hfin.
  unfold completions_of. simpl. by rewrite Hfin.
Qed.

End PoolRequests.

Section PoolTermination.
Context {A : Type} (max_workers : nat) (call : nat → string → traced A).
Import ThreadPool.

Local Abbreviation step := (step (A:=A) max_workers call).
Local Abbreviation reachable := (reachable (A:=A) max_workers call).

Lemma sum_list_with_insert {B} (f : B → nat) (l : list B) i x y :
  l !! i = Some x →
  (sum_list_with f (<[i := y]> l) + f x = sum_list_with f l + f y)%nat.
Proof.
  revert i. induction l as [|a l IH]; intros i Hi; [done|].
  destruct i as [|i]; simpl in *.
  - injection Hi as ->. lia.
  - specialize (IH i Hi). lia.
Qed.

(** Every step lowers [remaining] by one: a run from [σ] has at most
    [remaining σ] steps. *)
Lemma step_remaining (σ σ' : pool A) :
  step σ σ' → remaining σ = S (remaining σ').
Proof.
  intros Hstep. unfold remaining. destruct Hstep as
    [σ file files' Htodo | σ t i q file Ht Hq Hi | σ t i file Ht Hi]; simpl.
  - rewrite Htodo, sum_list_with_app. simpl.
    change (weight (file, Pending)) with 2%nat. lia.
  - pose proof (sum_list_with_insert weight _ _ _ (file, Running) Hi) as Hsum.
    change (weight (file, Pending)) with 2%nat in Hsum.
    change (weight (file, Running)) with 1%nat in Hsum. lia.
  - pose proof (sum_list_with_insert weight _ _ _
                  (file, Finished (call i file).2) Hi) as Hsum.
    change (weight (file, Running)) with 1%nat in Hsum.
    change (weight (file, Finished _)) with 0%nat in Hsum. lia.
Qed.

Lemma spawn_lookup_busy (ws : list worker) t i :
  spawn max_workers ws !! t = Some (Busy i) → ws !! t = Some (Busy i).
Proof.
  unfold spawn. case_decide; [|done].
  intros [?|[_ Hnew]]%lookup_app_Some; [done|].
  by apply list_lookup_singleton_Some in Hnew as [_ ?].
Qed.

Lemma spawn_lookup_keep (ws : list worker) t u :
  ws !! t = Some u → spawn max_workers ws !! t = Some u.
Proof.
  unfold spawn. case_decide; [|done]. apply lookup_app_l_Some.
Qed.

Lemma spawn_nonempty (ws : list worker) :
  (0 < max_workers)%nat → spawn max_workers ws ≠ [].
Proof.
  intros Hpos. unfold spawn. case_decide as Hlt.
  - by destruct ws.
  - destruct ws; simpl in *; [lia | done].
Qed.

Lemma consistent_step (σ σ' : pool A) :
  (0 < max_workers)%nat → consistent σ → step σ σ' → consistent σ'.
Proof.
  intros Hpos [Hbr Hrb Hinj Hq Hnd Hws] Hstep. destruct Hstep as
    [σ file files' Htodo | σ t i q file Ht Hqu Hi | σ t i file Ht Hi];
    split; simpl.
  - (* submit *)
    intros t i [f Hf]%spawn_lookup_busy%Hbr. exists f. by apply lookup_app_l_Some.
  - intros i f [Hf|[_ Hf]]%lookup_app_Some.
    + destruct (Hrb i f Hf) as [t Ht]. exists t. by apply spawn_lookup_keep.
    + by apply list_lookup_singleton_Some in Hf as [_ ?].
  - intros t t' i H1%spawn_lookup_busy H2%spawn_lookup_busy. by eapply Hinj.
  - intros i. rewrite elem_of_app, list_elem_of_singleton, Hq. split.
    + intros [[f Hf] | ->].
      * exists f. by apply lookup_app_l_Some.
      * exists file. by rewrite lookup_app_r, Nat.sub_diag by done.
    + intros [f [Hf|[Hge Hf]]%lookup_app_Some]; [left; eauto|].
      apply list_lookup_singleton_Some in Hf as [Hi _]. right. lia.
  - apply NoDup_app. split; [done|]. split; [|apply NoDup_singleton].
    intros i [f Hf%lookup_lt_Some]%Hq ->%list_elem_of_singleton. lia.
  - intros _. by apply spawn_nonempty.
  - (* take *)
    intros t' j [[-> [[= ->] _]] | [Hne Hj]]%list_lookup_insert_Some.
    + exists file. apply list_lookup_insert_eq. by eapply lookup_lt_Some.
    + destruct (Hbr _ _ Hj) as [f Hf]. exists f.
      rewrite list_lookup_insert_ne; [done|]. intros ->. congruence.
  - intros j f [[-> [[= ->] _]] | [Hne Hj]]%list_lookup_insert_Some.
    + exists t. apply list_lookup_insert_eq. by eapply lookup_lt_Some.
    + destruct (Hrb _ _ Hj) as [t' Ht']. exists t'.
      rewrite list_lookup_insert_ne; [done|]. intros ->. congruence.
  - intros t1 t2 j H1%list_lookup_insert_Some H2%list_lookup_insert_Some.
    destruct H1 as [(? & ? & _) | [Hne1 H1]], H2 as [(? & ? & _) | [Hne2 H2]];
      simplify_eq.
    + done.
    + destruct (Hbr _ _ H2) as [f Hf]. congruence.
    + destruct (Hbr _ _ H1) as [f Hf]. congruence.
    + eauto.
  - rewrite Hqu in Hq, Hnd. apply NoDup_cons in Hnd as [Hfresh Hnd].
    intros j. split.
    + intros Hj. destruct (proj1 (Hq j)) as [f Hf]; [by right|].
      exists f. rewrite list_lookup_insert_ne; [done|]. by intros ->.
    + intros [f Hf].
      apply list_lookup_insert_Some in Hf as [(_ & [=] & _) | [Hne Hj]].
      assert (j ∈ i :: q) as [->|?]%elem_of_cons by (apply Hq; eauto); done.
  - rewrite Hqu in Hnd. by apply NoDup_cons in Hnd as [_ ?].
  - intros _ Hnil. apply (f_equal length) in Hnil.
    rewrite length_insert in Hnil. apply lookup_lt_Some in Ht.
    simpl in Hnil. lia.
  - (* finish *)
    intros t' j [[-> [[=] _]] | [Hne Hj]]%list_lookup_insert_Some.
    destruct (Hbr _ _ Hj) as [f Hf]. exists f.
    rewrite list_lookup_insert_ne; [done|]. intros ->. eauto.
  - intros j f [[-> [[=] _]] | [Hne Hj]]%list_lookup_insert_Some.
    destruct (Hrb _ _ Hj) as [t' Ht']. exists t'.
    rewrite list_lookup_insert_ne; [done|]. intros ->. congruence.
  - intros t1 t2 j H1%list_lookup_insert_Some H2%list_lookup_insert_Some.
    destruct H1 as [(? & ? & _) | [Hne1 H1]], H2 as [(? & ? & _) | [Hne2 H2]];
      simplify_eq. eauto.
  - intros j. rewrite Hq. split.
    + intros [f Hf]. exists f. rewrite list_lookup_insert_ne; [done|].
      intros ->. congruence.
    + intros [f Hf].
      apply list_lookup_insert_Some in Hf as [(_ & [=] & _) | [Hne Hj]]. eauto.
  - done.
  - intros _ Hnil. apply (f_equal length) in Hnil.
    rewrite length_insert in Hnil. apply lookup_lt_Some in Ht.
    simpl in Hnil. lia.
Qed.

Lemma consistent_reachable (files : list string) (σ : pool A) :
  (0 < max_workers)%nat → reachable files σ → consistent σ.
Proof.
  intros Hpos. revert σ. apply reachable_ind_r.
  - split; simpl; try done.
    + intros i. split; [by intros ?%elem_of_nil | by intros [f ?]].
    + constructor.
  - intros σ σ' _ IH Hstep. by eapply consistent_step.
Qed.

(** No deadlock: a pool that is not done can take a step. *)
Lemma pool_progress (σ : pool A) :
  consistent σ → all_done σ ∨ ∃ σ', step σ σ'.
Proof.
  intros [Hbr Hrb Hinj Hq Hnd Hws].
  destruct (todo σ) as [|file files'] eqn:Htodo;
    [|right; eexists; by eapply step_submit].
  destruct (decide (Exists (λ t, is_busy t = true) (workers σ))) as [Hbusy|Hidle].
  { right. apply Exists_exists in Hbusy as ([|i] & Hin & Hb); [done|].
    apply list_elem_of_lookup in Hin as [t Ht].
    destruct (Hbr t i Ht) as [file Hfile].
    eexists. by eapply step_finish. }
  destruct (decide (Forall (λ p, is_finished p.2 = true) (futures σ)))
    as [Hfin|Hnot]; [by left|].
  right. apply not_Forall_Exists in Hnot; [|apply _].
  apply Exists_exists in Hnot as ([file s] & Hin & Hs).
  apply list_elem_of_lookup in Hin as [j Hj].
  destruct s as [| |r]; simpl in Hs; [| |done].
  - assert (j ∈ queue σ) as Hjq by (apply Hq; eauto).
    destruct (queue σ) as [|i q] eqn:Hqu; [by apply elem_of_nil in Hjq|].
    destruct (proj1 (Hq i)) as [f Hf]; [by left|].
    destruct (workers σ) as [|u ws] eqn:Hw.
    { destruct Hws; [|done]. intros Hnil. by rewrite Hnil in Hj. }
    destruct u as [|k]; [|destruct Hidle; by left].
    exists (mkPool (todo σ) (<[i := (f, Running)]> (futures σ)) q
              (<[0%nat := Busy i]> (workers σ)) (completed σ) (sent σ)).
    apply step_take; [by rewrite Hw | done | done].
  - destruct (Hrb j file Hj) as [t Ht]. destruct Hidle.
    apply Exists_exists. exists (Busy j). split; [|done].
    apply list_elem_of_lookup. eauto.
Qed.

(** Every run can be continued until the [with] block is left, ... *)
Lemma runs_finish (σ : pool A) :
  (0 < max_workers)%nat → consistent σ → ∃ σ', rtc step σ σ' ∧ all_done σ'.
Proof.
  intros Hpos. remember (remaining σ) as n eqn:Hn. revert σ Hn.
  induction n as [n IH] using lt_wf_ind. intros σ -> Hσ.
  destruct (pool_progress σ Hσ) as [Hdone | [σ1 Hstep]]; [by exists σ|].
  destruct (IH (remaining σ1)) with (σ := σ1) as (σ' & Hrun & Hdone).
  - rewrite (step_remaining _ _ Hstep). lia.
  - done.
  - by eapply consistent_step.
  - exists σ'. split; [by eapply rtc_l | done].
Qed.

(** ... and no run goes on for ever: its length is what [remaining]
    loses. *)
Lemma run_length (n : nat) (σ σ' : pool A) :
  nsteps step n σ σ' → remaining σ = (n + remaining σ')%nat.
Proof.
  induction 1 as [|n σ σ1 σ' Hstep _ IH]; [done|].
  rewrite (step_remaining _ _ Hstep), IH. lia.
Qed.

(** A cell whose executor may start a thread can be run to the end of
    its [with] block from every state it reaches. *)
Lemma run_exists (files : list string) (σ : pool A) :
  (0 < max_workers)%nat → reachable files σ →
  ∃ σ', reachable files σ' ∧ rtc step σ σ' ∧ all_done σ'.
Proof.
  intros Hpos Hσ.
  destruct (runs_finish σ Hpos (consistent_reachable _ _ Hpos Hσ))
    as (σ' & Hrun & Hdone).
  exists σ'. split; [|done]. unfold ThreadPool.reachable in *. by etrans.
Qed.

End PoolTermination.

(** ** The calls *)

Section CallFacts.
Context `{RT : Runtime}.

(** Unfolds a call down to the outcomes of its stages. *)
Ltac unfold_call :=
  unfold work, fetch_bbox, requests_get, numpy_load, load_global, getitem,
    tbind, tlift, tret in *; simpl in *.

(** A call sends its one request, whatever happens afterwards. *)
Lemma fetch_bbox_sent g w net file :
  (fetch_bbox g w net file).1 = [crop_request w file].
Proof.
  unfold_call. repeat case_match; simplify_eq; done.
Qed.

Lemma subscript_m1_Exception obj e :
  subscript_m1 obj = Raise e → is_Exception e = true.
Proof.
  destruct obj as [a|x|s|items]; simpl.
  - unfold getitem_m1. repeat case_match; by intros [= <-].
  - by intros [= <-].
  - case_match; by intros [= <-].
  - case_match; by intros [= <-].
Qed.

Lemma _stats_Exception data mask e :
  _stats data mask = Raise e → is_Exception e = true.
Proof.
  unfold _stats, ma_min, ma_max, ma_reduce, rbind.
  repeat case_match; simplify_eq; by intros [= <-].
Qed.

(** Whatever a call raises is an [Exception]. *)
Lemma fetch_bbox_Exception g w net file e :
  (fetch_bbox g w net file).2 = Raise e → is_Exception e = true.
Proof.
  unfold_call. unfold getitem_0_m1.
  repeat case_match; simplify_eq; simpl;
    try (by intros [= <-]); try done.
  all: intros [= <-]; eauto using subscript_m1_Exception, _stats_Exception.
Qed.

(** A call that returns gives the label of its file. *)
Lemma fetch_bbox_label g w net file v label :
  (fetch_bbox g w net file).2 = Return (v, label) → label_of file = Some label.
Proof.
  unfold_call. unfold label_of.
  repeat case_match; simplify_eq; simpl; try done.
  by intros [= _ <-].
Qed.

End CallFacts.

(** ** Draining the futures *)

(** When the futures only raise [Exception]s, draining them returns: it
    keeps the values of those that returned, in the order of the futures,
    and passes over the others. *)
Lemma _filter_futures_returned {A} (tasks : list (result A)) :
  Forall (λ r, ∀ e, r = Raise e → is_Exception e = true) tasks →
  _filter_futures tasks = Return (omap returned tasks).
Proof.
  induction 1 as [|r tasks Hr _ IH]; [done|].
  simpl. destruct r as [a|e]; simpl.
  - by rewrite IH.
  - by rewrite (Hr e eq_refl).
Qed.

(** A future that raised an [Exception] leaves no trace in what is
    drained from the others. *)
Lemma _filter_futures_drop {A} (before after : list (result A)) (e : exn) :
  is_Exception e = true →
  _filter_futures (before ++ Raise e :: after) = _filter_futures (before ++ after).
Proof.
  intros He. induction before as [|r before IH]; simpl; [by rewrite He|].
  destruct r as [a|e']; [by rewrite IH|]. by destruct (is_Exception e').
Qed.

Lemma length_omap_le {A B} (f : A → option B) (l : list A) :
  (length (omap f l) ≤ length l)%nat.
Proof.
  induction l as [|x l IH]; csimpl; [done|]. destruct (f x); csimpl; lia.
Qed.

Lemma omap_returned_all {A} (tasks : list (result A)) (vals : list A) :
  tasks = Return <$> vals → omap returned tasks = vals.
Proof.
  intros ->. induction vals as [|v vals IH]; csimpl; [done|]. by rewrite IH.
Qed.

Lemma omap_returned_none {A} (tasks : list (result A)) :
  Forall raises tasks → omap returned tasks = [].
Proof.
  induction 1 as [|r tasks [e ->] _ IH]; [done|]. done.
Qed.

(** The labels of the calls that returned are labels of the files, in the
    order of the files. *)
Lemma returned_labels_sublist (call : nat → string → traced (sample * string))
    (files : list string) :
  (∀ i file v label, (call i file).2 = Return (v, label) →
                     label_of file = Some label) →
  (omap returned (imap call files).*2).*2 `sublist_of` omap label_of files.
Proof.
  revert call. induction files as [|file files IH]; intros call Hcall;
    [constructor|].
  rewrite imap_cons. csimpl.
  specialize (IH (call ∘ S) (λ i, Hcall (S i))).
  destruct (call 0%nat file) as [sent [[v label]|e]] eqn:Hc; csimpl.
  - assert (label_of file = Some label) as ->.
    { apply (Hcall 0%nat file v). by rewrite Hc. }
    by apply sublist_skip.
  - destruct (label_of file); [by apply sublist_cons | done].
Qed.

Lemma concat_sent_imap {A} (call : nat → string → traced A)
    (req : string → Request) (files : list string) :
  (∀ i file, (call i file).1 = [req file]) →
  concat (imap call files).*1 = req <$> files.
Proof.
  revert call. induction files as [|file files IH]; intros call Hcall; [done|].
  rewrite imap_cons. simpl. rewrite Hcall. simpl. f_equal.
  apply IH. intros i f. apply Hcall.
Qed.

Section SeriesFacts.
Context `{RT : Runtime}.

Lemma future_work_Exception g w net files :
  Forall (λ r, ∀ e, r = Raise e → is_Exception e = true)
    (future_work g w net files).*2.
Proof.
  apply Forall_lookup. intros i r Hi e ->.
  unfold future_work in Hi. rewrite list_lookup_fmap, list_lookup_imap in Hi.
  destruct (files !! i) as [file|]; simplify_eq/=.
  by eapply fetch_bbox_Exception.
Qed.

(** Draining the futures of a cell always returns, with the pairs of the
    calls that returned, in the order of submission. *)
Lemma collected_returned g w net files :
  collected g w net files =
  Return (omap returned (future_work g w net files).*2).
Proof. apply _filter_futures_returned, future_work_Exception. Qed.

(** The requests of a cell: one per file, in the order of submission. *)
Lemma time_series_sent g w net files :
  (time_series g w net files).1 = crop_request w <$> files.
Proof.
  apply concat_sent_imap. intros i file. apply fetch_bbox_sent.
Qed.

End SeriesFacts.

(** ** Runs of a cell and the cell as a function *)

Section Adequacy.
Context `{RT : Runtime}.

(** Every run of a cell, whatever the order in which its calls complete,
    leaves what [time_series] computes and has sent the same requests. *)
Lemma cell_run_time_series max_workers g w net files sent out :
  cell_run max_workers g w net files sent out →
  out = (time_series g w net files).2 ∧
  sent ≡ₚ (time_series g w net files).1.
Proof.
  intros (σ & tasks & Hσ & Hdone & Hres & -> & ->).
  rewrite (all_done_results _ _ _ _ Hσ Hdone) in Hres.
  apply (inj (fmap Some)) in Hres. subst tasks. split.
  - unfold time_series, collected, future_work. simpl. by rewrite fmap_imap.
  - rewrite (all_done_sent _ _ _ _ Hσ Hdone).
    unfold time_series, future_work. simpl. by rewrite fmap_imap.
Qed.

(** A cell whose executor has at least one worker has a run. *)
Lemma cell_run_exists max_workers g w net files :
  (0 < max_workers)%nat →
  ∃ sent, cell_run max_workers g w net files sent (time_series g w net files).2.
Proof.
  intros Hpos.
  destruct (run_exists max_workers (work g w net) files
              (ThreadPool.init files) Hpos (rtc_refl _ _))
    as (σ & Hσ & _ & Hdone).
  exists (ThreadPool.sent σ), σ, (imap (λ i file, (work g w net i file).2) files).
  split; [done|]. split; [done|]. split; [by apply (all_done_results max_workers)|].
  split; [done|].
  unfold time_series, collected, future_work. simpl. by rewrite fmap_imap.
Qed.

End Adequacy.

(** ** The statistic *)

(** The two slices [fetch_bbox] takes of a crop with at least one band:
    [data[0:-1]] holds all bands but the last, [data[-1]] is the last
    band, and together they are the crop. *)
Lemma band_slices (data : ndarray) (b : nat) (rest : list nat) :
  wf_ndarray data → shape data = S b :: rest →
  ∃ values last,
    getitem_0_m1 data = Return values ∧ getitem_m1 data = Return last ∧
    shape values = b :: rest ∧ shape last = rest ∧
    wf_ndarray values ∧ wf_ndarray last ∧
    flat data = flat values ++ flat last.
Proof.
  unfold wf_ndarray, getitem_0_m1, getitem_m1. intros Hwf Hshape.
  rewrite Hshape in *. simpl in *. do 2 eexists.
  split; [done|]. split; [done|]. simpl.
  assert (take (size_of rest) (drop (b * size_of rest) (flat data))
          = drop (b * size_of rest) (flat data)) as ->.
  { apply take_ge. rewrite length_drop. lia. }
  split; [done|]. split; [done|]. split; [rewrite length_take; lia|].
  split; [rewrite length_drop; lia|]. by rewrite take_drop.
Qed.

Lemma compressed_elem (data : list sample) (mask : list bool) (x : sample) :
  x ∈ compressed data mask ↔
  ∃ p, data !! p = Some x ∧ mask !! p = Some false.
Proof.
  revert mask. induction data as [|y data IH]; intros mask; simpl.
  - split; [by intros ?%elem_of_nil | by intros (p & ? & _)].
  - destruct mask as [|b mask].
    { split; [by intros ?%elem_of_nil | by intros (p & _ & ?)]. }
    destruct b.
    + rewrite IH. split.
      * intros (p & ? & ?). by exists (S p).
      * intros ([|p] & ? & ?); simplify_eq/=. by exists p.
    + rewrite elem_of_cons, IH. split.
      * intros [-> | (p & ? & ?)]; [by exists 0%nat | by exists (S p)].
      * intros ([|p] & ? & ?); simplify_eq/=; [by left | right; by exists p].
Qed.

Lemma foldl_max_ge (xs : list Z) (x : Z) :
  x ≤ foldl Z.max x xs ∧ ∀ y, y ∈ xs → y ≤ foldl Z.max x xs.
Proof.
  revert x. induction xs as [|z xs IH]; intros x; simpl.
  - split; [lia | by intros y ?%elem_of_nil].
  - destruct (IH (Z.max x z)) as [H1 H2]. split; [lia|].
    intros y [-> | Hy]%elem_of_cons; [lia | by apply H2].
Qed.

Lemma foldl_max_elem (xs : list Z) (x : Z) :
  foldl Z.max x xs ∈ x :: xs.
Proof.
  revert x. induction xs as [|z xs IH]; intros x; simpl; [by left|].
  specialize (IH (Z.max x z)). apply elem_of_cons in IH as [-> | IH].
  - destruct (Z.max_spec x z) as [[_ ->] | [_ ->]]; [right; by left | by left].
  - right. by right.
Qed.

Lemma foldl_min_le (xs : list Z) (x : Z) :
  foldl Z.min x xs ≤ x ∧ ∀ y, y ∈ xs → foldl Z.min x xs ≤ y.
Proof.
  revert x. induction xs as [|z xs IH]; intros x; simpl.
  - split; [lia | by intros y ?%elem_of_nil].
  - destruct (IH (Z.min x z)) as [H1 H2]. split; [lia|].
    intros y [-> | Hy]%elem_of_cons; [lia | by apply H2].
Qed.

Lemma foldl_min_elem (xs : list Z) (x : Z) :
  foldl Z.min x xs ∈ x :: xs.
Proof.
  revert x. induction xs as [|z xs IH]; intros x; simpl; [by left|].
  specialize (IH (Z.min x z)). apply elem_of_cons in IH as [-> | IH].
  - destruct (Z.min_spec x z) as [[_ ->] | [_ ->]]; [by left | right; by left].
  - right. by right.
Qed.

(** A [NaN] among the samples of a reduction is its result. *)
Lemma foldl_sample_nan (op : sample → sample → sample) (xs : list sample)
    (x : sample) :
  (∀ a, op NaN a = NaN) → (∀ a, op a NaN = NaN) →
  NaN ∈ x :: xs → foldl op x xs = NaN.
Proof.
  intros Hl Hr. revert x. induction xs as [|z xs IH]; intros x Hin; simpl.
  - by apply list_elem_of_singleton in Hin.
  - apply IH. apply elem_of_cons in Hin as [<- | Hin].
    + rewrite Hl. by left.
    + apply elem_of_cons in Hin as [<- | Hin]; [rewrite Hr; by left | by right].
Qed.

Lemma foldl_sample_num (zs : list Z) (z : Z) :
  foldl sample_min (Num z) (Num <$> zs) = Num (foldl Z.min z zs) ∧
  foldl sample_max (Num z) (Num <$> zs) = Num (foldl Z.max z zs).
Proof.
  revert z. induction zs as [|y zs IH]; intros z; [done|]. csimpl.
  split; [apply (IH (Z.min z y)) | apply (IH (Z.max z y))].
Qed.

Lemma samples_num (l : list sample) : (NaN ∉ l) → ∃ zs, l = Num <$> zs.
Proof.
  induction l as [|[z|] l IH]; intros Hnan.
  - by exists [].
  - destruct IH as [zs ->]; [intros ?; apply Hnan; by right|].
    by exists (z :: zs).
  - destruct Hnan. by left.
Qed.

(** Without [NaN] the two reductions give the least and the greatest of
    their samples. *)
Lemma foldl_sample_order (xs : list sample) (x : sample) :
  (NaN ∉ x :: xs) →
  foldl sample_min x xs ∈ x :: xs ∧ foldl sample_max x xs ∈ x :: xs ∧
  ∀ y, y ∈ x :: xs →
    sample_le (foldl sample_min x xs) y ∧ sample_le y (foldl sample_max x xs).
Proof.
  intros [[|z zs] Heq]%samples_num; [done|].
  csimpl in Heq. injection Heq as -> ->.
  destruct (foldl_sample_num zs z) as [-> ->].
  change (Num z :: (Num <$> zs)) with (Num <$> (z :: zs)).
  split; [apply list_elem_of_fmap_2, foldl_min_elem|].
  split; [apply list_elem_of_fmap_2, foldl_max_elem|].
  intros y (y' & -> & Hy)%list_elem_of_fmap. simpl.
  destruct (foldl_min_le zs z) as [Hle1 Hle2].
  destruct (foldl_max_ge zs z) as [Hge1 Hge2].
  apply elem_of_cons in Hy as [-> | Hy]; [done|].
  split; [by apply Hle2 | by apply Hge2].
Qed.

(** The mask [set_mask] installs: position [p] is hidden exactly when the
    value of [m] at [p], counted round [m], is [true]. *)
Lemma set_mask_lookup (arr : masked_array) (m : list bool) (p : nat) :
  m ≠ [] → (p < length (ma_data arr))%nat →
  ma_mask (set_mask arr m) !! p = Some (default false (m !! (p mod length m)%nat)).
Proof.
  intros Hm Hp. unfold set_mask. destruct m as [|b m]; [done|]. simpl ma_mask.
  rewrite list_lookup_fmap, lookup_seq_lt by done. done.
Qed.

Lemma compressed_set_mask (data mask : ndarray) (x : sample) :
  flat mask ≠ [] →
  let arr := set_mask (ma_array data) (eq_zero mask) in
  x ∈ compressed (ma_data arr) (ma_mask arr) ↔ ∃ p, valid_sample data mask p x.
Proof.
  intros Hmask arr. rewrite compressed_elem.
  assert (eq_zero mask ≠ []) as Hne.
  { unfold eq_zero. by destruct (flat mask). }
  assert (ma_data arr = flat data) as Hdata.
  { unfold arr, set_mask. by destruct (eq_zero mask). }
  assert (length (eq_zero mask) = length (flat mask)) as Hlen.
  { unfold eq_zero. by rewrite length_fmap. }
  assert (∀ p, (p < length (flat data))%nat →
            ma_mask arr !! p = Some false ↔
            ∃ m, flat mask !! (p mod length (flat mask))%nat = Some m ∧
                 m ≠ Num 0)
    as Hlookup.
  { intros p Hp. unfold arr. rewrite set_mask_lookup by done.
    rewrite Hlen. unfold eq_zero. rewrite list_lookup_fmap.
    destruct (flat mask !! (p mod length (flat mask))%nat) as [m|] eqn:Hm; simpl.
    - split.
      + intros [= Hb]. exists m. split; [done|]. by apply bool_decide_eq_false in Hb.
      + intros (m' & [= <-] & Hm'). f_equal. by apply bool_decide_eq_false.
    - apply lookup_ge_None in Hm.
      assert (p mod length (flat mask) < length (flat mask))%nat.
      { apply Nat.mod_upper_bound. by destruct (flat mask). }
      lia. }
  rewrite Hdata. unfold valid_sample. split.
  - intros (p & Hp & Hm). exists p. split; [done|].
    apply Hlookup; [by eapply lookup_lt_Some | done].
  - intros (p & Hp & Hm). exists p. split; [done|].
    apply Hlookup; [by eapply lookup_lt_Some | done].
Qed.

Section StatsFacts.
Context `{RT : Runtime}.

(** What [_stats] computes: [data] has samples, and both reductions run
    over those the mask leaves. *)
Lemma _stats_reductions (data : ndarray) (mask : pyobj) (lo hi : sample)
    (mu sd : Q) :
  _stats data mask = Return (lo, hi, mu, sd) →
  flat data ≠ [] ∧
  match compressed (flat data)
          (ma_mask (set_mask (ma_array data) (obj_eq_zero mask))) with
  | [] => lo = Num 0 ∧ hi = Num 0
  | x :: xs => lo = foldl sample_min x xs ∧ hi = foldl sample_max x xs
  end.
Proof.
  unfold _stats.
  assert (ma_data (set_mask (ma_array data) (obj_eq_zero mask)) = flat data)
    as Hdata.
  { unfold set_mask. by destruct (obj_eq_zero mask). }
  unfold ma_min, ma_max, ma_reduce, rbind. rewrite Hdata.
  destruct (flat data) as [|d ds]; [done|].
  destruct (compressed (d :: ds) _) as [|x xs]; by intros [= <- <- <- <-].
Qed.

Lemma compressed_valid (data mask : ndarray) (x : sample) :
  flat mask ≠ [] →
  x ∈ compressed (flat data) (ma_mask (set_mask (ma_array data) (eq_zero mask)))
  ↔ ∃ p, valid_sample data mask p x.
Proof.
  intros Hmask. rewrite <- (compressed_set_mask data mask x Hmask).
  cbv zeta. f_equiv. f_equal. unfold set_mask. by destruct (eq_zero mask).
Qed.

(** The second component of [_stats(data, mask)] is the maximum of the
    valid samples of [data], when none of them is [NaN]: no valid sample
    exceeds it, and it is one of them when there is any. *)
Lemma _stats_max (data mask : ndarray) (lo hi : sample) (mu sd : Q) :
  flat mask ≠ [] →
  (∀ p, ¬ valid_sample data mask p NaN) →
  _stats data mask = Return (lo, hi, mu, sd) →
  (∀ p x, valid_sample data mask p x → sample_le x hi) ∧
  ((∃ p x, valid_sample data mask p x) → ∃ p, valid_sample data mask p hi).
Proof.
  intros Hmask Hnan Hred. apply _stats_reductions in Hred as [_ Hred].
  pose proof (λ x, compressed_valid data mask x Hmask) as Hcomp.
  simpl obj_eq_zero in Hred.
  set (c := compressed (flat data)
              (ma_mask (set_mask (ma_array data) (eq_zero mask)))) in *.
  clearbody c. destruct c as [|x xs].
  - split.
    + intros p x Hx. exfalso.
      assert (x ∈ @nil sample) as ?%elem_of_nil; [|done]. apply Hcomp; eauto.
    + intros (p & x & Hx). exfalso.
      assert (x ∈ @nil sample) as ?%elem_of_nil; [|done]. apply Hcomp; eauto.
  - destruct Hred as [_ ->].
    assert (NaN ∉ x :: xs) as Hnum.
    { intros [p Hp]%Hcomp. by apply (Hnan p). }
    destruct (foldl_sample_order xs x Hnum) as (_ & Hmax & Hord). split.
    + intros p y Hy. apply Hord, Hcomp. by exists p.
    + intros _. by apply Hcomp.
Qed.

End StatsFacts.

(** * The claims *)

(** ** The statistic of an item *)

(** C1.  The statistic the pipeline records does not come from the crop's
    own mask band.  For a crop of shape [2, 1, 2] with values 7 and 9 and
    mask band 1 and 0, the maximum over the valid samples is 7, and
    [_stats] gives it when it is handed the crop's last band.  But
    [fetch_bbox] hands it [mask[-1]], read from the namespace: in a fresh
    kernel the call raises [NameError] and records nothing; in a kernel
    where an earlier run left an all-valid [mask], it records 9, the
    rejected sample. *)
Theorem fetch_bbox_mask_not_from_crop :
  numpy_load (RT := stub_runtime) [x07; x09; x01; x00]%byte
    = Return crop_7_9 ∧
  rbind (getitem_0_m1 crop_7_9) (λ values,
    rbind (getitem_m1 crop_7_9) (λ last,
      _stats (RT := stub_runtime) values last))
    = Return (Num 7, Num 7, 0%Q, 0%Q) ∧
  (fetch_bbox (RT := stub_runtime)
     notebook_globals bounds (net_half_valid 0%nat) file_2019).2
    = Raise (NameError "mask") ∧
  (fetch_bbox (RT := stub_runtime)
     globals_with_mask bounds (net_half_valid 0%nat) file_2019).2
    = Return (Num 9, "2019m0115"%string).
Proof. by vm_compute. Qed.

(** In a fresh kernel a call never gets past [mask]. *)
Lemma fetch_bbox_fresh_kernel `{RT : Runtime} (w : Window) (net : network)
    (file : string) :
  (fetch_bbox notebook_globals w net file).2 =
  match net (crop_request w file) with
  | None => Raise RequestException
  | Some r =>
      match numpy_decode (content r) with
      | None => Raise ValueError
      | Some data =>
          match getitem_0_m1 data with
          | Raise e => Raise e
          | Return _ => Raise (NameError "mask")
          end
      end
  end.
Proof.
  assert (notebook_globals !! "mask"%string = None) as Hmask by by vm_compute.
  unfold fetch_bbox, requests_get, numpy_load, load_global, crop_request,
    tbind, tlift, tret. rewrite Hmask. simpl.
  destruct (net _) as [r|]; simpl; [|done].
  destruct (numpy_decode _) as [data|]; simpl; [|done].
  by destruct (getitem_0_m1 data).
Qed.

Lemma collected_fresh_kernel `{RT : Runtime} (w : Window) (net : nat → network)
    (files : list string) :
  collected notebook_globals w net files = Return [].
Proof.
  rewrite collected_returned. f_equal.
  apply omap_returned_none, Forall_lookup. intros i r Hi.
  unfold future_work, work in Hi.
  rewrite list_lookup_fmap, list_lookup_imap in Hi.
  destruct (files !! i) as [file|]; simplify_eq/=.
  rewrite fetch_bbox_fresh_kernel. unfold raises. repeat case_match; eauto.
Qed.

(** C2.  In the namespace of the notebook [mask] is bound nowhere, so a
    call of [fetch_bbox] never returns: it raises what the request, the
    decoding or the slicing of the payload raise, and [NameError] for
    [mask] once these have succeeded.  Draining the futures then gives no
    pair at all, whatever the network answers. *)
Theorem fetch_bbox_mask_unbound `{RT : Runtime} (w : Window) :
  ("mask"%string ∉ notebook_names) ∧
  notebook_globals !! "mask"%string = None ∧
  (∀ (net : network) (file : string),
     (fetch_bbox notebook_globals w net file).2 =
     match net (crop_request w file) with
     | None => Raise RequestException
     | Some r =>
         match numpy_decode (content r) with
         | None => Raise ValueError
         | Some data =>
             match getitem_0_m1 data with
             | Raise e => Raise e
             | Return _ => Raise (NameError "mask")
             end
         end
     end) ∧
  (∀ (net : nat → network) (files : list string),
     collected notebook_globals w net files = Return []).
Proof.
  split; [|split; [by vm_compute|split]].
  - apply (bool_decide_unpack _). by vm_compute.
  - apply fetch_bbox_fresh_kernel.
  - apply collected_fresh_kernel.
Qed.

(** ** Failures of single items *)

(** Three files of which the second meets a network that is down, in a
    kernel in which [mask] is bound: the first and the third give their
    pairs, the second is passed over, and three requests were sent. *)
Example partial_failure :
  time_series (RT := stub_runtime) globals_with_mask bounds net_second_down
    [file_2019; file_2020; file_2020]
  = (crop_request (RT := stub_runtime) bounds <$>
       [file_2019; file_2020; file_2020],
     Return ([Num 7; Num 7], ["2019m0115"; "2020m0115"]%string)).
Proof. by vm_compute. Qed.

(** The status of a response is never read: two responses with the same
    payload lead a call to the same outcome. *)
Lemma fetch_bbox_ignores_status `{RT : Runtime} g w (net net' : network) file :
  (∀ req, content <$> net req = content <$> net' req) →
  fetch_bbox g w net file = fetch_bbox g w net' file.
Proof.
  intros Hnet. unfold fetch_bbox, requests_get, tbind. simpl.
  specialize (Hnet (mkRequest GET (crop_url w) (crop_params file))).
  destruct (net _) as [r|], (net' _) as [r'|]; simplify_eq/=; [|done].
  by rewrite Hnet.
Qed.

(** A call whose request fails in transport raises. *)
Lemma fetch_bbox_transport_failure `{RT : Runtime} g w (net : network) file :
  net (crop_request w file) = None →
  (fetch_bbox g w net file).2 = Raise RequestException.
Proof.
  intros Hnet. unfold fetch_bbox, requests_get, tbind, crop_request in *.
  simpl. by rewrite Hnet.
Qed.

(** A call whose response does not decode raises. *)
Lemma fetch_bbox_decode_failure `{RT : Runtime} g w (net : network) file r :
  net (crop_request w file) = Some r → numpy_decode (content r) = None →
  (fetch_bbox g w net file).2 = Raise ValueError.
Proof.
  intros Hnet Hdecode.
  unfold fetch_bbox, requests_get, numpy_load, tbind, tlift, crop_request in *.
  simpl. rewrite Hnet. simpl. by rewrite Hdecode.
Qed.

(** The pairs of a batch one of whose calls raised are those of the files
    before it followed by those of the files after it. *)
Lemma collected_without `{RT : Runtime} g w (net : nat → network)
    (before after : list string) (file : string) :
  raises (work g w net (length before) file).2 →
  collected g w net (before ++ file :: after) =
  Return (omap returned (future_work g w net before).*2 ++
          omap returned
            (future_work g w (λ i, net (S (length before + i))) after).*2).
Proof.
  intros [e He]. rewrite collected_returned. f_equal. unfold future_work.
  rewrite imap_app, fmap_app, omap_app, imap_cons. csimpl.
  rewrite Nat.add_0_r, He. csimpl. do 3 f_equal.
  apply imap_ext. intros i f _. unfold work. simpl.
  by rewrite Nat.add_succ_r.
Qed.

(** C3, as stated, fails: a response that is not 2xx is no failure to the
    cells, which never read the status.  Every request below is answered
    with status 404 and a payload that decodes; in a kernel in which
    [mask] is bound each item contributes its pair, as it does when the
    status is 200. *)
Lemma non_2xx_response_contributes :
  (∀ i req, status_code <$> net_404 i req = Some 404) ∧
  fetch_bbox (RT := stub_runtime) globals_with_mask bounds (net_404 0%nat)
    file_2019
  = ([crop_request (RT := stub_runtime) bounds file_2019],
     Return (Num 7, "2019m0115"%string)) ∧
  collected (RT := stub_runtime) globals_with_mask bounds net_404
    [file_2019; file_2020]
  = Return [(Num 7, "2019m0115"%string); (Num 7, "2020m0115"%string)] ∧
  collected (RT := stub_runtime) globals_with_mask bounds net_404
    [file_2019; file_2020]
  = collected (RT := stub_runtime) globals_with_mask bounds net_ok
      [file_2019; file_2020].
Proof. split; [done|]. by vm_compute. Qed.

(** C3, amended.  An item fails when its call raises, which it does when
    the request fails in transport and when the payload does not decode;
    the status of the response plays no part, two networks whose
    responses carry the same payloads give the same pairs.  Whatever a
    call raises is an [Exception], so draining the futures returns (no
    exception of an item reaches the caller) with the pairs of the items
    whose call returned, in the order of the items.  An item whose call
    raised loses its own contribution only: the pairs are those of the
    items before it followed by those of the items after it.  Every item
    has its call, and the requests of the batch are one per item: nothing
    is sent again. *)
Theorem item_failures_are_dropped `{RT : Runtime} (g : gmap string pyobj)
    (w : Window) (net : nat → network) (files : list string) :
  collected g w net files =
    Return (omap returned (future_work g w net files).*2) ∧
  length (future_work g w net files) = length files ∧
  (time_series g w net files).1 = crop_request w <$> files ∧
  (∀ i file, files !! i = Some file →
     (net i (crop_request w file) = None ∨
      ∃ r, net i (crop_request w file) = Some r ∧
           numpy_decode (content r) = None) →
     raises (work g w net i file).2) ∧
  (∀ i file e, files !! i = Some file →
     (work g w net i file).2 = Raise e → is_Exception e = true) ∧
  (∀ before file after, files = before ++ file :: after →
     raises (work g w net (length before) file).2 →
     collected g w net files =
     Return (omap returned (future_work g w net before).*2 ++
             omap returned
               (future_work g w (λ i, net (S (length before + i))) after).*2)) ∧
  (∀ net', (∀ i req, content <$> net i req = content <$> net' i req) →
     collected g w net' files = collected g w net files).
Proof.
  split; [apply collected_returned|].
  split; [unfold future_work; apply length_imap|].
  split; [apply time_series_sent|]. split; [|split; [|split]].
  - intros i file _ [Hdown | (r & Hr & Hdecode)]; unfold work.
    + exists RequestException. by apply fetch_bbox_transport_failure.
    + exists ValueError. by eapply fetch_bbox_decode_failure.
  - intros i file e _. apply fetch_bbox_Exception.
  - intros before file after ->. apply collected_without.
  - intros net' Hnet. unfold collected, future_work. do 2 f_equal.
    apply imap_ext. intros i file _. unfold work. symmetry.
    apply fetch_bbox_ignores_status, Hnet.
Qed.

(** When no call returns, the unpacking of the cell raises. *)
Lemma time_series_none_returned `{RT : Runtime} g w net files :
  Forall raises (future_work g w net files).*2 →
  collected g w net files = Return [] ∧
  (time_series g w net files).2 = Raise ValueError.
Proof.
  intros Hall. unfold time_series. simpl.
  rewrite collected_returned, omap_returned_none by done. done.
Qed.

(** C4.  A batch all of whose requests fail does not end quietly.  With
    the network down, draining the futures gives the empty collection,
    and the unpacking [values, dates = zip(...)] of that collection then
    raises [ValueError], which leaves the cell; the requests of the two
    files below were sent before. *)
Theorem all_failed_batch_raises `{RT : Runtime} (g : gmap string pyobj)
    (w : Window) (files : list string) :
  collected g w net_down files = Return [] ∧
  (time_series g w net_down files).2 = Raise ValueError ∧
  time_series (RT := stub_runtime) notebook_globals bounds net_down
    [file_2019; file_2020]
  = ([crop_request (RT := stub_runtime) bounds file_2019;
      crop_request (RT := stub_runtime) bounds file_2020],
     Raise ValueError).
Proof.
  rewrite (assoc (∧)). split; [|by vm_compute].
  apply time_series_none_returned, Forall_lookup. intros i r Hi.
  unfold future_work, work in Hi.
  rewrite list_lookup_fmap, list_lookup_imap in Hi.
  destruct (files !! i) as [file|]; simplify_eq/=.
  by exists RequestException.
Qed.

Lemma returned_all_labels (call : nat → string → traced (sample * string))
    (files : list string) :
  (∀ i file v label, (call i file).2 = Return (v, label) →
                     label_of file = Some label) →
  Forall (λ r, ¬ raises r) (imap call files).*2 →
  length (omap returned (imap call files).*2) = length files ∧
  Some <$> (omap returned (imap call files).*2).*2 = label_of <$> files.
Proof.
  revert call. induction files as [|file files IH]; intros call Hlabel Hall;
    [done|].
  rewrite imap_cons in *. csimpl in *.
  apply Forall_cons in Hall as [Hfile Hall].
  destruct (IH (call ∘ S) (λ i, Hlabel (S i)) Hall) as [Hlen Hlabels].
  destruct (call 0%nat file) as [sent [[v label]|e]] eqn:Hc; csimpl in *.
  - split; [by rewrite Hlen|]. rewrite Hlabels. f_equal.
    symmetry. apply (Hlabel 0%nat file v). by rewrite Hc.
  - destruct Hfile. by exists e.
Qed.

(** When every call returns, draining the futures gives one pair per
    file, with the labels of the files in their order. *)
Lemma collected_all_returned `{RT : Runtime} g w net files :
  Forall (λ r, ¬ raises r) (future_work g w net files).*2 →
  ∃ pairs, collected g w net files = Return pairs ∧
    length pairs = length files ∧
    Some <$> pairs.*2 = label_of <$> files.
Proof.
  intros Hall. rewrite collected_returned. eexists. split; [done|].
  apply returned_all_labels; [|done].
  intros i file v label. apply fetch_bbox_label.
Qed.

(** C5.  A batch all of whose requests succeed does not yield one pair
    per item.  In the namespace of the notebook the collection is empty
    whatever the network answers; for the two files below every request
    is answered with status 200 and a payload that decodes, and the
    collection still has no pair, where it has both in a kernel in which
    [mask] is bound. *)
Theorem all_succeeded_batch_is_empty `{RT : Runtime} (w : Window)
    (files : list string) :
  collected notebook_globals w net_ok files = Return [] ∧
  (∀ i req, (status_code <$> net_ok i req) = Some 200 ∧
            (numpy_load (RT := stub_runtime) ∘ content <$> net_ok i req)
            = Some (Return (mkArray [2; 1; 1]%nat [Num 7; Num 1]))) ∧
  collected (RT := stub_runtime) notebook_globals bounds net_ok
    [file_2019; file_2020] = Return [] ∧
  collected (RT := stub_runtime) globals_with_mask bounds net_ok
    [file_2019; file_2020]
  = Return [(Num 7, "2019m0115"%string); (Num 7, "2020m0115"%string)].
Proof.
  split; [apply collected_fresh_kernel|]. split; [|by vm_compute].
  intros i req. by vm_compute.
Qed.

(** ** Size and labels of the collection *)

(** C6.  Whatever the namespace, the window, the network and the files,
    the pairs drained from the futures, which the cell unpacks into its
    two columns, are at most as many as the files, and each of their
    labels is the label of one of the files. *)
Theorem samples_bounded_by_items `{RT : Runtime} (g : gmap string pyobj)
    (w : Window) (net : nat → network) (files : list string) :
  ∃ pairs, collected g w net files = Return pairs ∧
    (time_series g w net files).2 = unpack_columns pairs ∧
    (0 ≤ length pairs ≤ length files)%nat ∧
    pairs.*2 ⊆ omap label_of files.
Proof.
  eexists. split; [apply collected_returned|]. split; [|split].
  - unfold time_series. simpl. by rewrite collected_returned.
  - split; [lia|]. etrans; [apply length_omap_le|].
    unfold future_work. by rewrite length_fmap, length_imap.
  - apply sublist_subseteq, returned_labels_sublist.
    intros i file v label. apply fetch_bbox_label.
Qed.

(** ** The request of an item *)

(** C7.  The one request of a call is a GET with the three query
    parameters [url], [bidx] and [max_size], but its URL is the endpoint
    followed by [cog/crop/...] with no slash between: the host becomes
    [api.cogeo.xyzcog] and the path starts with [/crop/], not with
    [/cog/crop/] as the notebook documents it and as the metadata and
    tilejson requests, which write the slash, have it. *)
Theorem crop_request_path `{RT : Runtime} (g : gmap string pyobj)
    (w : Window) (net : network) (file : string) :
  (fetch_bbox g w net file).1 =
    [mkRequest GET (crop_url w)
       [("url", PStr ("s3://omi-no2-nasa/" +:+ file));
        ("bidx", PStr "1"); ("max_size", PInt 128)]%string] ∧
  url_host (crop_url w) = Some "api.cogeo.xyzcog"%string ∧
  url_path (crop_url w) =
    Some ("/crop/" +:+ float_repr (xmin w) +:+ "," +:+
          float_repr (ymin w) +:+ "," +:+ float_repr (xmax w) +:+ "," +:+
          float_repr (ymax w) +:+ ".npy")%string ∧
  url_path (crop_url w) ≠ Some (documented_crop_path w) ∧
  url_host metadata_url = Some "api.cogeo.xyz"%string ∧
  url_path metadata_url = Some "/cog/metadata"%string ∧
  url_host tilejson_url = Some "api.cogeo.xyz"%string ∧
  url_path tilejson_url = Some "/cog/tilejson.json"%string ∧
  crop_url (RT := stub_runtime) bounds =
    "https://api.cogeo.xyzcog/crop/-74.1796875,45.18978009667531,-73.092041015625,46.00459325574482.npy"%string.
Proof.
  split; [apply fetch_bbox_sent|].
  assert (url_path (crop_url w) =
    Some ("/crop/" +:+ float_repr (xmin w) +:+ "," +:+
          float_repr (ymin w) +:+ "," +:+ float_repr (xmax w) +:+ "," +:+
          float_repr (ymax w) +:+ ".npy")%string) as Hpath by done.
  split; [done|]. split; [done|]. split; [|by vm_compute].
  rewrite Hpath. unfold documented_crop_path. by intros [= Heq].
Qed.

(** ** The order of the series *)

(** C8, as stated, fails: the cells have no sort.  In a kernel in which
    [mask] is bound, two files submitted newest first come out newest
    first, and that is the series handed to the plot; it is not
    chronological, and sorted by label it would start with the older
    one. *)
Lemma series_not_sorted :
  ∃ values dates,
    (time_series (RT := stub_runtime) globals_with_mask bounds net_ok
       [file_2020; file_2019]).2 = Return (values, dates) ∧
    dates = ["2020m0115"; "2019m0115"]%string ∧
    zip values dates ≠ spec_sorted_by_label (zip values dates) ∧
    ¬ chronological dates.
Proof.
  exists [Num 7; Num 7], ["2020m0115"; "2019m0115"]%string.
  split; [by vm_compute|]. split; [done|]. split; [by vm_compute|].
  intros [Hfirst _]%StronglySorted_cons.
  by apply Forall_cons in Hfirst as [Hfirst _].
Qed.

Lemma StronglySorted_sublist {A} (R : relation A) (k l : list A) :
  k `sublist_of` l → StronglySorted R l → StronglySorted R k.
Proof.
  induction 1 as [|x k l Hkl IH|x k l Hkl IH]; [done| |].
  - intros [Hx Hl]%StronglySorted_cons. constructor; [by apply IH|].
    rewrite Forall_forall in *. intros y Hy. apply Hx.
    by eapply (sublist_subseteq k l).
  - intros [_ Hl]%StronglySorted_cons. by apply IH.
Qed.

Lemma omap_fmap_Some {A B} (f : A → option B) (l : list A) (k : list B) :
  Some <$> k = f <$> l → omap f l = k.
Proof.
  revert k. induction l as [|x l IH]; intros [|y k] Heq; try done.
  csimpl in *. injection Heq as Hx Heq. rewrite <- Hx. csimpl.
  f_equal. by apply IH.
Qed.

(** C8, amended.  Every run of a cell, whatever the order in which its
    calls complete, leaves the pairs of the calls that returned in the
    order of submission, unpacked into the two columns without any sort;
    their labels follow the order of the files.  So the series is
    chronological whenever the files were submitted in chronological
    order; and when every call returns its labels are those of the
    files, and it is chronological exactly when the files were. *)
Theorem series_in_submission_order `{RT : Runtime} (max_workers : nat)
    (g : gmap string pyobj) (w : Window) (net : nat → network)
    (files : list string) (sent : list Request)
    (out : result (list sample * list string)) :
  cell_run max_workers g w net files sent out →
  out = unpack_columns (omap returned (future_work g w net files).*2) ∧
  (omap returned (future_work g w net files).*2).*2
    `sublist_of` omap label_of files ∧
  (chronological (omap label_of files) →
   chronological (omap returned (future_work g w net files).*2).*2) ∧
  (Forall (λ r, ¬ raises r) (future_work g w net files).*2 →
   (omap returned (future_work g w net files).*2).*2 = omap label_of files ∧
   (chronological (omap returned (future_work g w net files).*2).*2 ↔
    chronological (omap label_of files))) ∧
  (∀ values dates, out = Return (values, dates) →
   dates = (omap returned (future_work g w net files).*2).*2 ∧
   (chronological (omap label_of files) → chronological dates)).
Proof.
  intros [-> _]%cell_run_time_series.
  assert ((omap returned (future_work g w net files).*2).*2
            `sublist_of` omap label_of files) as Hsub.
  { apply returned_labels_sublist. intros i file v label.
    apply fetch_bbox_label. }
  assert ((time_series g w net files).2
          = unpack_columns (omap returned (future_work g w net files).*2))
    as Hout.
  { unfold time_series. simpl. by rewrite collected_returned. }
  split; [done|]. split; [done|]. split; [|split].
  - by apply StronglySorted_sublist.
  - intros Hall.
    assert ((omap returned (future_work g w net files).*2).*2
            = omap label_of files) as ->; [|done].
    symmetry. apply omap_fmap_Some.
    apply (returned_all_labels (work g w net) files); [|done].
    intros i file v label. apply fetch_bbox_label.
  - intros values dates. rewrite Hout. clear Hout.
    set (pairs := omap returned (future_work g w net files).*2) in *.
    clearbody pairs. unfold unpack_columns.
    destruct pairs as [|pair pairs]; [done|].
    intros [= <- <-]. split; [done|]. intros Hsorted.
    by apply (StronglySorted_sublist _ _ _ Hsub).
Qed.

Lemma series_in_submission_order_witness :
  ∃ sent,
    cell_run (RT := stub_runtime) max_workers_files_15 globals_with_mask
      bounds net_ok [file_2020; file_2019] sent
      (time_series (RT := stub_runtime) globals_with_mask bounds net_ok
         [file_2020; file_2019]).2 ∧
    (time_series (RT := stub_runtime) globals_with_mask bounds net_ok
       [file_2020; file_2019]).2
    = unpack_columns (omap returned
        (future_work (RT := stub_runtime) globals_with_mask bounds net_ok
           [file_2020; file_2019]).*2) ∧
    (omap returned
       (future_work (RT := stub_runtime) globals_with_mask bounds net_ok
          [file_2020; file_2019]).*2).*2
      `sublist_of` omap label_of [file_2020; file_2019].
Proof.
  destruct (cell_run_exists (RT := stub_runtime) max_workers_files_15
              globals_with_mask bounds net_ok [file_2020; file_2019])
    as [sent Hrun]; [unfold max_workers_files_15; lia|].
  exists sent. split; [exact Hrun|].
  destruct (series_in_submission_order _ _ _ _ _ _ _ Hrun) as (H1 & H2 & _).
  exact (conj H1 H2).
Defined.

(** ** The input of a batch *)

(** C9, as stated, fails: nothing checks the window.  With the two
    longitudes of [bounds] exchanged the window is malformed, yet the
    request of the item is sent, with the numbers as they are, in a fresh
    kernel as in one in which [mask] is bound, where the cell then ends
    normally. *)
Lemma malformed_window_scheduled :
  ¬ valid_window swapped_bounds ∧
  time_series (RT := stub_runtime) globals_with_mask swapped_bounds net_ok
    [file_2019]
  = ([mkRequest GET
        "https://api.cogeo.xyzcog/crop/-73.092041015625,45.18978009667531,-74.1796875,46.00459325574482.npy"
        [("url", PStr "s3://omi-no2-nasa/OMI-Aura_L3-OMNO2d_2019m0115_v003-2019m0116t183701.he5.tif");
         ("bidx", PStr "1"); ("max_size", PInt 128)]%string],
     Return ([Num 7], ["2019m0115"%string])) ∧
  (time_series (RT := stub_runtime) notebook_globals swapped_bounds net_ok
     [file_2019]).1
  = [crop_request (RT := stub_runtime) swapped_bounds file_2019].
Proof.
  split; [|by vm_compute].
  intros [Hx _]. unfold Qle in Hx. simpl in Hx. lia.
Qed.

(** C9, amended.  A cell tests neither its files nor its window: for
    every window, well-formed or not, it sends the request of each file,
    built from the numbers of the window as they are; without files it
    sends nothing. *)
Theorem window_not_checked `{RT : Runtime} (g : gmap string pyobj)
    (w : Window) (net : nat → network) (files : list string) :
  (time_series g w net files).1 = crop_request w <$> files ∧
  length (time_series g w net files).1 = length files ∧
  (time_series g w net []).1 = [].
Proof.
  split; [apply time_series_sent|]. split; [|done].
  by rewrite time_series_sent, length_fmap.
Qed.

(** ** The concurrency bound *)

Section PoolBound.
Context {A : Type} (max_workers : nat) (call : nat → string → traced A).
Import ThreadPool.

Local Abbreviation step := (step (A:=A) max_workers call).
Local Abbreviation reachable := (reachable (A:=A) max_workers call).
Local Abbreviation busy := (λ t : worker, is_busy t = true).

Lemma filter_busy_full (ws : list worker) :
  length (filter busy ws) = length ws → Forall busy ws.
Proof.
  induction ws as [|t ws IH]; [constructor|].
  rewrite filter_cons. case_decide as Ht; simpl.
  - intros [= Hlen]. constructor; [done | by apply IH].
  - intros Hlen. pose proof (length_filter busy ws). lia.
Qed.

Lemma in_flight_release (ws : list worker) (t i : nat) :
  ws !! t = Some (Busy i) →
  (length (filter busy (<[t := Idle]> ws)) < length (filter busy ws))%nat.
Proof.
  revert t. induction ws as [|u ws IH]; intros t Ht; [done|].
  destruct t as [|t]; simpl in *.
  - injection Ht as ->. rewrite filter_cons_False by done.
    rewrite filter_cons_True by done. simpl. lia.
  - specialize (IH t Ht). rewrite !filter_cons.
    case_decide; simpl; lia.
Qed.

(** With every thread busy no step starts a call: a step submits a file,
    which joins the queue, or finishes a call. *)
Lemma full_pool_step (σ σ' : pool A) :
  (length (workers σ) ≤ max_workers)%nat → in_flight σ = max_workers →
  step σ σ' →
  (in_flight σ' ≤ in_flight σ)%nat ∧ queue σ `prefix_of` queue σ'.
Proof.
  intros Hbound Hfull Hstep. unfold in_flight in *.
  pose proof (length_filter busy (workers σ)) as Hle.
  assert (Forall busy (workers σ)) as Hbusy by (apply filter_busy_full; lia).
  destruct Hstep as
    [σ file files' Htodo | σ t i q file Ht Hq Hi | σ t i file Ht Hi]; simpl.
  - split; [|by apply prefix_app_r].
    unfold spawn. case_decide; [lia | done].
  - rewrite Forall_lookup in Hbusy. by specialize (Hbusy _ _ Ht).
  - split; [|done]. pose proof (in_flight_release _ _ _ Ht). lia.
Qed.

End PoolBound.

(** The two cells: at most 10 calls in flight in the first, at most 50
    in the second. *)
Lemma cells_in_flight `{RT : Runtime} g w net files σ :
  (ThreadPool.reachable max_workers_files_15 (work g w net) files σ →
   (ThreadPool.in_flight σ ≤ 10)%nat) ∧
  (ThreadPool.reachable max_workers_files (work g w net) files σ →
   (ThreadPool.in_flight σ ≤ 50)%nat).
Proof.
  pose proof (in_flight_le_workers σ) as Hle.
  split; intros Hσ%workers_bounded;
    unfold max_workers_files_15, max_workers_files in *; lia.
Qed.

(** C10.  In every state a cell can reach, the calls in flight are at
    most [max_workers], the number given to its executor (10 for the
    first cell, 50 for the second); and when that many are in flight, no
    further call starts: a step from there finishes a call or submits a
    file, which waits in the queue. *)
Theorem in_flight_bounded {A : Type} (max_workers : nat)
    (call : nat → string → traced A) (files : list string)
    (σ : ThreadPool.pool A) :
  ThreadPool.reachable max_workers call files σ →
  (ThreadPool.in_flight σ ≤ max_workers)%nat ∧
  (ThreadPool.in_flight σ = max_workers →
   ∀ σ', ThreadPool.step max_workers call σ σ' →
     (ThreadPool.in_flight σ' ≤ ThreadPool.in_flight σ)%nat ∧
     ThreadPool.queue σ `prefix_of` ThreadPool.queue σ').
Proof.
  intros Hσ. pose proof (workers_bounded _ _ _ _ Hσ) as Hbound.
  pose proof (in_flight_le_workers σ) as Hle. split; [lia|].
  intros Hfull σ' Hstep. by eapply full_pool_step.
Qed.

Lemma pool_one_running_reachable :
  ThreadPool.reachable max_workers_files_15
    (work (RT := stub_runtime) notebook_globals bounds net_ok)
    [file_2019] pool_one_running.
Proof.
  apply (rtc_l _ _ (ThreadPool.mkPool [] [(file_2019, ThreadPool.Pending)]
                      [0%nat] [ThreadPool.Idle] [] [])).
  { exact (ThreadPool.step_submit _ _ (ThreadPool.init [file_2019])
             file_2019 [] eq_refl). }
  apply rtc_once.
  exact (ThreadPool.step_take _ _
           (ThreadPool.mkPool [] [(file_2019, ThreadPool.Pending)]
              [0%nat] [ThreadPool.Idle] [] [])
           0%nat 0%nat [] file_2019 eq_refl eq_refl eq_refl).
Defined.

Lemma pool_full_reachable :
  ThreadPool.reachable 1
    (work (RT := stub_runtime) notebook_globals bounds net_ok)
    [file_2019; file_2020] pool_full.
Proof.
  apply (rtc_l _ _ (ThreadPool.mkPool [file_2020]
                      [(file_2019, ThreadPool.Pending)]
                      [0%nat] [ThreadPool.Idle] [] [])).
  { exact (ThreadPool.step_submit _ _ (ThreadPool.init [file_2019; file_2020])
             file_2019 [file_2020] eq_refl). }
  apply rtc_once.
  exact (ThreadPool.step_take _ _
           (ThreadPool.mkPool [file_2020] [(file_2019, ThreadPool.Pending)]
              [0%nat] [ThreadPool.Idle] [] [])
           0%nat 0%nat [] file_2019 eq_refl eq_refl eq_refl).
Defined.

Lemma pool_full_step :
  ThreadPool.step 1
    (work (RT := stub_runtime) notebook_globals bounds net_ok)
    pool_full pool_full_waiting.
Proof.
  exact (ThreadPool.step_submit _ _ pool_full file_2020 [] eq_refl).
Defined.

Lemma in_flight_bounded_witness :
  ThreadPool.reachable max_workers_files_15
    (work (RT := stub_runtime) notebook_globals bounds net_ok)
    [file_2019] pool_one_running ∧
  ThreadPool.in_flight pool_one_running = 1%nat ∧
  (ThreadPool.in_flight pool_one_running ≤ max_workers_files_15)%nat ∧
  ThreadPool.in_flight pool_full = 1%nat ∧
  (ThreadPool.in_flight pool_full_waiting ≤ ThreadPool.in_flight pool_full)%nat ∧
  ThreadPool.queue pool_full `prefix_of` ThreadPool.queue pool_full_waiting.
Proof.
  split; [exact pool_one_running_reachable|]. split; [reflexivity|].
  split; [exact (proj1 (in_flight_bounded _ _ _ _ pool_one_running_reachable))|].
  split; [reflexivity|].
  exact (proj2 (in_flight_bounded _ _ _ _ pool_full_reachable) eq_refl
           pool_full_waiting pool_full_step).
Defined.

(** * Further properties *)

(** ** Choosing the files *)

Lemma str_split_nonempty (sep : ascii) (s : string) : str_split sep s ≠ [].
Proof.
  destruct s as [|c s]; simpl; [done|].
  case_decide; [done|]. by destruct (str_split sep s).
Qed.

Lemma str_split_app_sep (sep : ascii) (a r : string) :
  occurs sep a = false →
  str_split sep (a +:+ String sep r) = a :: str_split sep r.
Proof.
  induction a as [|c a IH]; simpl.
  - intros _. by rewrite decide_True.
  - intros [Hc Ha]%orb_false_elim. apply bool_decide_eq_false in Hc.
    rewrite decide_False by done. by rewrite (IH Ha).
Qed.

Lemma date_token_label (x : string) :
  date_token x =
  match label_of x with
  | Some d => Return d
  | None => Raise IndexError
  end.
Proof. done. Qed.

(** [list(filter(p, l))] for a lambda that reads the date token of its
    argument: one key without a date token makes it raise; otherwise it
    keeps the keys whose token passes. *)
Lemma py_filter_token (q : string → bool) (p : string → result bool)
    (files : list string) :
  (∀ x, p x = match label_of x with
              | Some d => Return (q d)
              | None => Raise IndexError
              end) →
  py_filter p files =
  if decide (Forall (λ x, is_Some (label_of x)) files)
  then Return (filter (λ x, q <$> label_of x = Some true) files)
  else Raise IndexError.
Proof.
  intros Hp. induction files as [|x files IH]; [by rewrite decide_True|].
  simpl. rewrite Hp, IH. destruct (label_of x) as [d|] eqn:Hd; simpl.
  - destruct (decide (Forall _ files)) as [Hall|Hnot]; simpl.
    + rewrite decide_True by (constructor; [by rewrite Hd | done]).
      rewrite filter_cons. rewrite Hd. simpl.
      destruct (q d); [by rewrite decide_True | by rewrite decide_False].
    + rewrite decide_False; [done|]. by intros [_ ?]%Forall_cons.
  - rewrite decide_False; [done|].
    intros [[d Hsome] _]%Forall_cons. by rewrite Hd in Hsome.
Qed.

(** X1.  Each of the three filters of the listing raises [IndexError] as
    soon as one key has fewer than three parts between underscores,
    wherever it stands and whatever its date; otherwise it returns, in the
    order of the listing, the keys whose date token has the year 2019,
    the month 10 and day 05, or the day 15. *)
Theorem key_filters_outcome (files : list string) :
  files_2019 files =
    (if decide (Forall (λ x, is_Some (label_of x)) files)
     then Return (filter (λ x, token_slice 0 4 x = Some "2019"%string) files)
     else Raise IndexError) ∧
  files_Oct5 files =
    (if decide (Forall (λ x, is_Some (label_of x)) files)
     then Return (filter (λ x, token_slice 5 7 x = Some "10"%string ∧
                               token_slice 7 9 x = Some "05"%string) files)
     else Raise IndexError) ∧
  files_15 files =
    (if decide (Forall (λ x, is_Some (label_of x)) files)
     then Return (filter (λ x, token_slice 7 9 x = Some "15"%string) files)
     else Raise IndexError).
Proof.
  split; [|split].
  - unfold files_2019.
    rewrite (py_filter_token
               (λ d, bool_decide (str_slice 0 4 d = "2019"%string))).
    + case_decide; [|done]. f_equal. apply list_filter_iff. intros x.
      unfold token_slice. destruct (label_of x) as [d|]; simpl; [|done].
      split.
      * intros [= Hd]. f_equal. by apply bool_decide_eq_true in Hd.
      * intros [= Hd]. f_equal. by apply bool_decide_eq_true.
    + intros x. unfold in_2019. rewrite date_token_label.
      by destruct (label_of x).
  - unfold files_Oct5.
    rewrite (py_filter_token
               (λ d, bool_decide (str_slice 5 7 d = "10"%string) &&
                     bool_decide (str_slice 7 9 d = "05"%string))).
    + case_decide; [|done]. f_equal. apply list_filter_iff. intros x.
      unfold token_slice. destruct (label_of x) as [d|]; simpl.
      * split.
        -- intros [= [Hm Hd]%andb_prop]. apply bool_decide_eq_true in Hm, Hd.
           by rewrite Hm, Hd.
        -- intros [[= Hm] [= Hd]]. f_equal.
           apply andb_true_intro. by rewrite !bool_decide_eq_true.
      * split; [done | by intros [? _]].
    + intros x. unfold on_Oct5. rewrite date_token_label.
      by destruct (label_of x).
  - unfold files_15.
    rewrite (py_filter_token
               (λ d, bool_decide (str_slice 7 9 d = "15"%string))).
    + case_decide; [|done]. f_equal. apply list_filter_iff. intros x.
      unfold token_slice. destruct (label_of x) as [d|]; simpl; [|done].
      split.
      * intros [= Hd]. f_equal. by apply bool_decide_eq_true in Hd.
      * intros [= Hd]. f_equal. by apply bool_decide_eq_true.
    + intros x. unfold on_15. rewrite date_token_label.
      by destruct (label_of x).
Qed.

(** Turns a string of known length into its characters. *)
Ltac string_of_length H :=
  repeat match type of H with
         | String.length ?s = S _ =>
             destruct s as [|? ?]; simpl in H; [discriminate H|];
             injection H as H
         | String.length ?s = O =>
             destruct s as [|? ?]; simpl in H; [|discriminate H]
         end.

Lemma occurs_cons_false (c c' : ascii) (s : string) :
  occurs c (String c' s) = false → c' ≠ c ∧ occurs c s = false.
Proof.
  simpl. intros [Hc Hs]%orb_false_elim. by apply bool_decide_eq_false in Hc.
Qed.

(** X2.  For a key of the structure the notebook gives, with a year of
    four characters, a month and a day of two and no underscore in them,
    the date token is [{YEAR}m{MONTH}{DAY}] and the positional slices read
    what they are meant to: the first filter keeps the key exactly when
    the year is 2019, the second when the month is 10 and the day 05, the
    third when the day is 15. *)
Theorem omi_key_filters (year month day rest : string) :
  String.length year = 4%nat → String.length month = 2%nat →
  String.length day = 2%nat →
  occurs "_" year = false → occurs "_" month = false →
  occurs "_" day = false →
  label_of (omi_key year month day rest)
    = Some (year +:+ "m" +:+ month +:+ day) ∧
  in_2019 (omi_key year month day rest)
    = Return (bool_decide (year = "2019"%string)) ∧
  on_Oct5 (omi_key year month day rest)
    = Return (bool_decide (month = "10"%string) &&
              bool_decide (day = "05"%string)) ∧
  on_15 (omi_key year month day rest)
    = Return (bool_decide (day = "15"%string)).
Proof.
  intros Hy Hm Hd Hyu Hmu Hdu.
  assert (label_of (omi_key year month day rest)
          = Some (year +:+ "m" +:+ month +:+ day)) as Hlabel.
  { unfold label_of, omi_key.
    change ("OMI-Aura_L3-OMNO2d_" +:+ year +:+ "m" +:+ month +:+ day +:+
            "_" +:+ rest)
      with ("OMI-Aura" +:+ String "_" ("L3-OMNO2d" +:+
              String "_" (year +:+ "m" +:+ month +:+ day +:+
                          String "_" rest))).
    rewrite !str_split_app_sep by done. simpl.
    assert (year +:+ "m" +:+ month +:+ day +:+ String "_" rest
            = (year +:+ "m" +:+ month +:+ day) +:+ String "_" rest) as ->.
    { string_of_length Hy. string_of_length Hm. string_of_length Hd. done. }
    rewrite str_split_app_sep; [done|].
    string_of_length Hy. string_of_length Hm. string_of_length Hd.
    repeat (apply occurs_cons_false in Hyu as [? Hyu]).
    repeat (apply occurs_cons_false in Hmu as [? Hmu]).
    repeat (apply occurs_cons_false in Hdu as [? Hdu]).
    simpl. by rewrite !bool_decide_eq_false_2. }
  split; [done|].
  unfold in_2019, on_Oct5, on_15. rewrite !date_token_label, Hlabel. simpl.
  string_of_length Hy. string_of_length Hm. string_of_length Hd.
  done.
Qed.

Lemma omi_key_filters_witness :
  label_of (omi_key "2019" "01" "15" "v003-2019m0116t183701.he5.tif")
    = Some "2019m0115"%string ∧
  in_2019 (omi_key "2019" "01" "15" "v003-2019m0116t183701.he5.tif")
    = Return true ∧
  on_Oct5 (omi_key "2019" "01" "15" "v003-2019m0116t183701.he5.tif")
    = Return false ∧
  on_15 (omi_key "2019" "01" "15" "v003-2019m0116t183701.he5.tif")
    = Return true.
Proof.
  exact (omi_key_filters "2019" "01" "15" "v003-2019m0116t183701.he5.tif"
           eq_refl eq_refl eq_refl eq_refl eq_refl eq_refl).
Defined.

Lemma files_15_kept (files fs : list string) :
  files_15 files = Return fs →
  fs = filter (λ x, token_slice 7 9 x = Some "15"%string) files.
Proof.
  unfold files_15.
  rewrite (py_filter_token (λ d, bool_decide (str_slice 7 9 d = "15"%string))).
  - case_decide; [|done]. intros [= <-]. apply list_filter_iff. intros x.
    unfold token_slice. destruct (label_of x) as [d|]; simpl; [|done].
    split.
    + intros [= Hd]. f_equal. by apply bool_decide_eq_true in Hd.
    + intros [= Hd]. f_equal. by apply bool_decide_eq_true.
  - intros x. unfold on_15. rewrite date_token_label. by destruct (label_of x).
Qed.

(** X3.  The files the first cell works on, when the filter returns them:
    they are keys of the listing, in its order, each with a date token
    whose day is 15; so whatever the kernel and the network, every date
    the cell collects from them is a 15th. *)
Theorem files_15_series `{RT : Runtime} (g : gmap string pyobj) (w : Window)
    (net : nat → network) (files fs : list string) :
  files_15 files = Return fs →
  fs `sublist_of` files ∧
  Forall (λ x, token_slice 7 9 x = Some "15"%string) fs ∧
  ∃ pairs, collected g w net fs = Return pairs ∧
    Forall (λ d, str_slice 7 9 d = "15"%string) pairs.*2.
Proof.
  intros ->%files_15_kept.
  set (fs := filter (λ x, token_slice 7 9 x = Some "15"%string) files).
  assert (Forall (λ x, token_slice 7 9 x = Some "15"%string) fs) as Hfs.
  { apply Forall_forall. by intros x [? _]%list_elem_of_filter. }
  split; [apply sublist_filter|]. split; [done|].
  eexists. split; [apply collected_returned|].
  apply Forall_forall. intros d Hd.
  assert (d ∈ omap label_of fs) as Hin.
  { eapply sublist_subseteq; [|exact Hd]. apply returned_labels_sublist.
    intros i file v label. apply fetch_bbox_label. }
  apply list_elem_of_omap in Hin as (x & Hx & Hlabel).
  rewrite Forall_forall in Hfs. specialize (Hfs x Hx).
  unfold token_slice in Hfs. rewrite Hlabel in Hfs. by injection Hfs.
Qed.

Lemma files_15_series_witness :
  files_15 [file_2019; file_2019_16; file_2020] = Return [file_2019; file_2020] ∧
  [file_2019; file_2020] `sublist_of` [file_2019; file_2019_16; file_2020] ∧
  Forall (λ x, token_slice 7 9 x = Some "15"%string) [file_2019; file_2020] ∧
  ∃ pairs,
    collected (RT := stub_runtime) globals_with_mask bounds net_ok
      [file_2019; file_2020] = Return pairs ∧
    Forall (λ d, str_slice 7 9 d = "15"%string) pairs.*2.
Proof.
  split; [reflexivity|].
  exact (files_15_series (RT := stub_runtime) globals_with_mask bounds net_ok
           [file_2019; file_2019_16; file_2020] [file_2019; file_2020] eq_refl).
Defined.

(** ** Listing the bucket *)

Lemma foldl_extend (pages : list s3_page) (acc : list s3_object) :
  foldl (λ files subset, files ++ page_contents subset) acc pages
  = acc ++ concat (page_contents <$> pages).
Proof.
  revert acc. induction pages as [|page pages IH]; intros acc; simpl.
  - by rewrite (right_id_L [] (++)).
  - by rewrite IH, (assoc_L (++)).
Qed.

Lemma object_keys_outcome (objects : list s3_object) :
  object_keys objects =
  if decide (Forall (λ r : s3_object, is_Some (r !! "Key"%string)) objects)
  then Got (omap (λ r : s3_object, r !! "Key"%string) objects)
  else KeyError "Key".
Proof.
  induction objects as [|r objects IH]; [by rewrite decide_True|].
  simpl. unfold dict_getitem. rewrite IH.
  destruct (r !! "Key"%string) as [key|] eqn:Hkey; csimpl.
  - destruct (decide (Forall _ objects)) as [Hall|Hnot].
    + rewrite decide_True by (constructor; [by rewrite Hkey | done]).
      done.
    + rewrite decide_False; [done|]. by intros [_ ?]%Forall_cons.
  - rewrite decide_False; [done|].
    intros [[k Hk] _]%Forall_cons. by rewrite Hkey in Hk.
Qed.

(** X4.  [list_objects] reads the objects of all pages in the order of the
    pages, a page without ["Contents"] giving none.  It raises
    [KeyError] for ["Key"] as soon as one of them has no such field, and
    otherwise returns their keys, one per object, in that order; a
    listing whose pages are all without ["Contents"] gives the empty list
    and no error. *)
Theorem list_objects_outcome (paginate : string → string → list s3_page)
    (bkt prefix : string) :
  list_objects paginate bkt prefix =
    (if decide (Forall (λ r : s3_object, is_Some (r !! "Key"%string))
                  (concat (page_contents <$> paginate bkt prefix)))
     then Got (omap (λ r : s3_object, r !! "Key"%string)
                 (concat (page_contents <$> paginate bkt prefix)))
     else KeyError "Key") ∧
  (∀ keys, list_objects paginate bkt prefix = Got keys →
     length keys
     = sum_list (length ∘ page_contents <$> paginate bkt prefix)) ∧
  (Forall (λ page : s3_page, page !! "Contents"%string = None)
     (paginate bkt prefix) →
   list_objects paginate bkt prefix = Got []).
Proof.
  assert (list_objects paginate bkt prefix =
    (if decide (Forall (λ r : s3_object, is_Some (r !! "Key"%string))
                  (concat (page_contents <$> paginate bkt prefix)))
     then Got (omap (λ r : s3_object, r !! "Key"%string)
                 (concat (page_contents <$> paginate bkt prefix)))
     else KeyError "Key")) as Hout.
  { unfold list_objects. rewrite foldl_extend. simpl. apply object_keys_outcome. }
  split; [done|]. split.
  - intros keys. rewrite Hout. case_decide as Hall; [|done]. intros [= <-].
    generalize (paginate bkt prefix) Hall. clear. intros pages.
    induction pages as [|page pages IH]; [done|]. csimpl.
    intros [Hpage Hrest]%Forall_app. rewrite omap_app, length_app, (IH Hrest).
    f_equal. clear -Hpage. induction (page_contents page) as [|r rs IH];
      [done|]. csimpl. apply Forall_cons in Hpage as [[k ->] Hrs]. csimpl.
    by rewrite (IH Hrs).
  - intros Hnone. rewrite Hout.
    assert (concat (page_contents <$> paginate bkt prefix) = []) as ->.
    { revert Hnone. generalize (paginate bkt prefix). intros pages.
      induction 1 as [|page pages Hpage _ IH]; [done|]. csimpl.
      unfold page_contents at 1. by rewrite Hpage, IH. }
    by rewrite decide_True.
Qed.

Lemma list_objects_outcome_witness :
  list_objects (λ _ _, [∅; {["Contents"%string := [{["Key"%string := file_2019]}]]}])
    bucket "OMI-Aura_L3" = Got [file_2019] ∧
  list_objects (λ _ _, [∅; ∅]) bucket "OMI-Aura_L3" = Got [].
Proof.
  split; [reflexivity|].
  apply (proj2 (proj2 (list_objects_outcome (λ _ _, [∅; ∅]) bucket "OMI-Aura_L3"))).
  repeat constructor.
Defined.

(** ** The statistics of a crop *)

Section MoreStatsFacts.
Context `{RT : Runtime}.

(** X5.  When [_stats(data, mask)] returns, for an array [mask] with at
    least one value.  If one of the valid samples of [data] is [NaN], its
    first two components are both [NaN].  If none is: the first component
    is not above the second; every valid sample of [data] lies between
    the two; and when there is a valid sample, both components are valid
    samples themselves, the least and the greatest.  A [NaN] that the
    mask hides does not count. *)
Theorem _stats_bounds (data mask : ndarray) (lo hi : sample) (mu sd : Q) :
  flat mask ≠ [] →
  _stats data mask = Return (lo, hi, mu, sd) →
  ((∃ p, valid_sample data mask p NaN) → lo = NaN ∧ hi = NaN) ∧
  ((∀ p, ¬ valid_sample data mask p NaN) →
   sample_le lo hi ∧
   (∀ p x, valid_sample data mask p x → sample_le lo x ∧ sample_le x hi) ∧
   ((∃ p x, valid_sample data mask p x) →
    (∃ p, valid_sample data mask p lo) ∧ (∃ p, valid_sample data mask p hi))).
Proof.
  intros Hmask Hred. apply _stats_reductions in Hred as [_ Hred].
  pose proof (λ x, compressed_valid data mask x Hmask) as Hcomp.
  simpl obj_eq_zero in Hred.
  set (c := compressed (flat data)
              (ma_mask (set_mask (ma_array data) (eq_zero mask)))) in *.
  clearbody c. destruct c as [|x xs].
  - destruct Hred as [-> ->]. split.
    + intros Hnan. by apply Hcomp, elem_of_nil in Hnan.
    + intros _. split; [done|]. split.
      * intros p x Hx. exfalso.
        assert (x ∈ @nil sample) as ?%elem_of_nil; [|done].
        apply Hcomp; eauto.
      * intros (p & x & Hx). exfalso.
        assert (x ∈ @nil sample) as ?%elem_of_nil; [|done].
        apply Hcomp; eauto.
  - destruct Hred as [-> ->]. split.
    + intros Hnan%Hcomp.
      split; (apply foldl_sample_nan; [done | by intros [] | done]).
    + intros Hnan.
      assert (NaN ∉ x :: xs) as Hnum.
      { intros [p Hp]%Hcomp. by apply (Hnan p). }
      destruct (foldl_sample_order xs x Hnum) as (Hmin & Hmax & Hord).
      split; [by apply Hord|]. split.
      * intros p y Hy. apply Hord, Hcomp. by exists p.
      * intros _. split; by apply Hcomp.
Qed.

(** X6.  [_stats] raises in one case only, [ValueError] for a [data]
    without samples, whatever the mask. *)
Theorem _stats_raises_iff (data : ndarray) (mask : pyobj) (e : exn) :
  _stats data mask = Raise e ↔ flat data = [] ∧ e = ValueError.
Proof.
  unfold _stats, ma_min, ma_max, ma_reduce, rbind.
  assert (ma_data (set_mask (ma_array data) (obj_eq_zero mask)) = flat data)
    as ->.
  { unfold set_mask. by destruct (obj_eq_zero mask). }
  destruct (flat data) as [|d ds].
  - split; [by intros [= <-] | by intros [_ ->]].
  - split; [|by intros [? _]].
    by destruct (compressed _ _).
Qed.

End MoreStatsFacts.

Lemma _stats_bounds_witness :
  _stats (RT := stub_runtime)
    (mkArray [1; 1; 3]%nat [Num 7; NaN; Num 4])
    (mkArray [1; 3]%nat [Num 1; Num 0; Num 1])
    = Return (Num 4, Num 7, 0%Q, 0%Q) ∧
  ((∀ p, ¬ valid_sample (mkArray [1; 1; 3]%nat [Num 7; NaN; Num 4])
             (mkArray [1; 3]%nat [Num 1; Num 0; Num 1]) p NaN) →
   sample_le (Num 4) (Num 7) ∧
   (∀ p x, valid_sample (mkArray [1; 1; 3]%nat [Num 7; NaN; Num 4])
             (mkArray [1; 3]%nat [Num 1; Num 0; Num 1]) p x →
           sample_le (Num 4) x ∧ sample_le x (Num 7))).
Proof.
  split; [reflexivity|]. intros Hnan.
  pose proof (_stats_bounds (RT := stub_runtime)
                (mkArray [1; 1; 3]%nat [Num 7; NaN; Num 4])
                (mkArray [1; 3]%nat [Num 1; Num 0; Num 1])
                (Num 4) (Num 7) 0%Q 0%Q ltac:(discriminate) eq_refl)
    as [_ Hnum].
  destruct (Hnum Hnan) as (H1 & H2 & _). exact (conj H1 H2).
Defined.

(** ** One call *)

Section MoreCallFacts.
Context `{RT : Runtime}.

(** X7.  Nothing in a cell reads the status of a response: two networks
    whose responses carry the same payloads give the same requests and
    the same outcome, so that a response of status 404 with a payload
    that decodes counts like one of status 200. *)
Theorem time_series_ignores_status (g : gmap string pyobj) (w : Window)
    (net net' : nat → network) (files : list string) :
  (∀ i req, content <$> net i req = content <$> net' i req) →
  time_series g w net files = time_series g w net' files.
Proof.
  intros Hnet. unfold time_series, collected.
  assert (future_work g w net files = future_work g w net' files) as ->;
    [|done].
  unfold future_work. apply imap_ext. intros i file _. unfold work.
  apply fetch_bbox_ignores_status. apply Hnet.
Qed.

Lemma fetch_bbox_inv (g : gmap string pyobj) (w : Window)
    (net : network) (file : string) (v : sample) (label : string) :
  (fetch_bbox g w net file).2 = Return (v, label) →
  ∃ r data values obj last lo mu sd,
    net (crop_request w file) = Some r ∧
    numpy_decode (content r) = Some data ∧
    getitem_0_m1 data = Return values ∧
    g !! "mask"%string = Some obj ∧
    subscript_m1 obj = Return last ∧
    _stats values last = Return (lo, v, mu, sd) ∧
    label_of file = Some label.
Proof.
  unfold fetch_bbox, requests_get, numpy_load, load_global, getitem,
    crop_request, label_of, tbind, tlift, tret. simpl.
  destruct (net _) as [r|]; simpl; [|done].
  destruct (numpy_decode _) as [data|] eqn:Hdata; simpl; [|done].
  destruct (getitem_0_m1 data) as [values|] eqn:Hvalues; simpl; [|done].
  destruct (g !! "mask"%string) as [obj|] eqn:Hmask; simpl; [|done].
  destruct (subscript_m1 obj) as [last|] eqn:Hlast; simpl; [|done].
  destruct (_stats values last) as [[[[lo hi] mu] sd]|] eqn:Hstats; simpl;
    [|done].
  destruct (str_split "_" file !! 2%nat) as [l|] eqn:Hlabel; simpl; [|done].
  intros [= <- <-]. by exists r, data, values, obj, last, lo, mu, sd.
Qed.

(** The second component of [_stats] is 0, when the mask hides every
    sample, or one of the samples of [data]. *)
Lemma _stats_value (data : ndarray) (mask : pyobj) (lo hi : sample)
    (mu sd : Q) :
  _stats data mask = Return (lo, hi, mu, sd) →
  flat data ≠ [] ∧ (hi = Num 0 ∨ hi ∈ flat data).
Proof.
  intros Hred. apply _stats_reductions in Hred as [Hne Hred].
  split; [done|]. revert Hred.
  destruct (compressed _ _) as [|x xs] eqn:Hc; [intros [_ ->]; by left|].
  intros [_ ->]. right.
  assert (foldl sample_max x xs ∈ x :: xs) as Hin.
  { destruct (decide (NaN ∈ x :: xs)) as [Hnan|Hnum].
    - rewrite foldl_sample_nan; [done | done | by intros [] | done].
    - by apply foldl_sample_order. }
  rewrite <- Hc in Hin. apply compressed_elem in Hin as (p & Hp & _).
  by eapply list_elem_of_lookup_2.
Qed.

(** X8.  What a returning call has gone through, and what it returns.
    The request was answered; the payload decoded to an array whose bands
    before the last hold a sample; [mask] was bound in the kernel, to an
    object of which [mask[-1]] could be taken; the file name had its
    third part, which is the label.  The value is one of the samples of the bands before the
    last, or 0 when every sample was masked.  When the last entry of
    [mask] is an array with a value and no valid sample is [NaN], the
    value is the greatest valid sample. *)
Theorem fetch_bbox_returns (g : gmap string pyobj) (w : Window)
    (net : network) (file : string) (v : sample) (label : string) :
  (fetch_bbox g w net file).2 = Return (v, label) →
  ∃ r data values obj last,
    net (crop_request w file) = Some r ∧
    numpy_decode (content r) = Some data ∧
    getitem_0_m1 data = Return values ∧ flat values ≠ [] ∧
    g !! "mask"%string = Some obj ∧
    subscript_m1 obj = Return last ∧
    label_of file = Some label ∧
    (v = Num 0 ∨ v ∈ flat values) ∧
    (∀ m : ndarray, last = PyNdarray m → flat m ≠ [] →
       (∀ p, ¬ valid_sample values m p NaN) →
       (∀ p x, valid_sample values m p x → sample_le x v) ∧
       ((∃ p x, valid_sample values m p x) →
        ∃ p, valid_sample values m p v)).
Proof.
  intros Hret. apply fetch_bbox_inv in Hret
    as (r & data & values & obj & last & lo & mu & sd &
        Hnet & Hdata & Hvalues & Hmask & Hlast & Hstats & Hlabel).
  destruct (_stats_value values last lo v mu sd Hstats) as [Hne Hv].
  exists r, data, values, obj, last.
  repeat (split; [done|]).
  intros m -> Hm Hnan. by apply (_stats_max values m lo v mu sd).
Qed.

(** With [mask] bound to the list [[1.0]] a call returns as well:
    [mask[-1] == 0] is then one [False], nothing is masked, and the value
    is the greatest sample of the bands before the last. *)
Example fetch_bbox_list_mask :
  (fetch_bbox (RT := stub_runtime) globals_with_list_mask bounds
     (net_half_valid 0%nat) file_2019).2
  = Return (Num 9, "2019m0115"%string).
Proof. by vm_compute. Qed.

(** X9.  A file name with fewer than three parts between underscores
    still costs its request, and the call then raises: such a file never
    contributes. *)
Theorem fetch_bbox_unlabelled (g : gmap string pyobj) (w : Window)
    (net : network) (file : string) :
  label_of file = None →
  (fetch_bbox g w net file).1 = [crop_request w file] ∧
  raises (fetch_bbox g w net file).2.
Proof.
  intros Hlabel. split; [apply fetch_bbox_sent|].
  destruct (fetch_bbox g w net file).2 as [[v label]|e] eqn:Hout;
    [|by exists e].
  apply fetch_bbox_label in Hout. congruence.
Qed.

Lemma _stats_empty (data : ndarray) (mask : pyobj) :
  flat data = [] → _stats data mask = Raise ValueError.
Proof.
  intros Hdata. unfold _stats, ma_min, ma_reduce, rbind.
  assert (ma_data (set_mask (ma_array data) (obj_eq_zero mask)) = flat data)
    as ->.
  { unfold set_mask. by destruct (obj_eq_zero mask). }
  by rewrite Hdata.
Qed.

(** X10.  A payload that decodes to an array with at most one entry along
    its first axis, a single band or none, leaves no value band once the
    last is set apart: the call raises in every kernel. *)
Theorem fetch_bbox_single_band (g : gmap string pyobj) (w : Window)
    (net : network) (file : string) (r : Response) (data : ndarray)
    (b : nat) (rest : list nat) :
  net (crop_request w file) = Some r →
  numpy_decode (content r) = Some data →
  shape data = b :: rest → (b ≤ 1)%nat →
  raises (fetch_bbox g w net file).2.
Proof.
  intros Hnet Hdata Hshape Hb.
  destruct (fetch_bbox g w net file).2 as [[v label]|e] eqn:Hout;
    [|by exists e].
  apply fetch_bbox_inv in Hout
    as (r' & data' & values & m & last & lo & mu & sd &
        Hnet' & Hdata' & Hvalues & _ & _ & Hstats & _).
  rewrite Hnet in Hnet'. injection Hnet' as <-.
  rewrite Hdata in Hdata'. injection Hdata' as <-.
  unfold getitem_0_m1 in Hvalues. rewrite Hshape in Hvalues.
  injection Hvalues as <-.
  rewrite _stats_empty in Hstats; [done|]. simpl.
  by replace (pred b) with 0%nat by lia.
Qed.

End MoreCallFacts.

Lemma time_series_ignores_status_witness :
  time_series (RT := stub_runtime) globals_with_mask bounds net_404 [file_2019]
  = time_series (RT := stub_runtime) globals_with_mask bounds net_ok [file_2019] ∧
  (time_series (RT := stub_runtime) globals_with_mask bounds net_404
     [file_2019]).2 = Return ([Num 7], ["2019m0115"%string]).
Proof.
  split; [|reflexivity].
  apply (time_series_ignores_status (RT := stub_runtime)). reflexivity.
Defined.

Lemma fetch_bbox_returns_witness :
  (fetch_bbox (RT := stub_runtime) globals_with_mask bounds (net_ok 0%nat)
     file_2019).2 = Return (Num 7, "2019m0115"%string) ∧
  label_of file_2019 = Some "2019m0115"%string ∧
  (Num 7 = Num 0 ∨ Num 7 ∈ [Num 7]).
Proof.
  split; [reflexivity|].
  destruct (fetch_bbox_returns (RT := stub_runtime) globals_with_mask bounds
              (net_ok 0%nat) file_2019 (Num 7) "2019m0115" eq_refl)
    as (r & data & values & obj & last & Hnet & Hdata & Hvalues & _ & _ & _ &
        Hlabel & Hv & _).
  split; [exact Hlabel|].
  injection Hnet as <-. injection Hdata as <-. injection Hvalues as <-.
  exact Hv.
Defined.

Lemma fetch_bbox_unlabelled_witness :
  label_of file_unlabelled = None ∧
  (fetch_bbox (RT := stub_runtime) globals_with_mask bounds (net_ok 0%nat)
     file_unlabelled).1
  = [crop_request (RT := stub_runtime) bounds file_unlabelled] ∧
  raises (fetch_bbox (RT := stub_runtime) globals_with_mask bounds
            (net_ok 0%nat) file_unlabelled).2.
Proof.
  split; [reflexivity|].
  exact (fetch_bbox_unlabelled (RT := stub_runtime) globals_with_mask bounds
           (net_ok 0%nat) file_unlabelled eq_refl).
Defined.

Lemma fetch_bbox_single_band_witness :
  raises (fetch_bbox (RT := one_band_runtime) globals_with_mask bounds
            (net_ok 0%nat) file_2019).2.
Proof.
  exact (fetch_bbox_single_band (RT := one_band_runtime) globals_with_mask
           bounds (net_ok 0%nat) file_2019
           (mkResponse 200 [x07; x01]%byte)
           (mkArray [1; 1; 2]%nat [Num 7; Num 1]) 1%nat [1; 2]%nat
           eq_refl eq_refl eq_refl (le_n 1)).
Defined.

(** ** Draining and unpacking *)

(** X11.  [_filter_futures] returns exactly when no future raised
    anything but an [Exception], and then with the values of the futures
    that returned; when it raises, what it raises is no [Exception] and
    was raised by one of the futures: the handler lets nothing else
    through and raises nothing of its own. *)
Theorem _filter_futures_outcome {A} (tasks : list (result A)) :
  ((∃ vals, _filter_futures tasks = Return vals) ↔
   Forall (λ r, ∀ e, r = Raise e → is_Exception e = true) tasks) ∧
  (∀ vals, _filter_futures tasks = Return vals → vals = omap returned tasks) ∧
  (∀ e, _filter_futures tasks = Raise e →
        is_Exception e = false ∧ Raise e ∈ tasks).
Proof.
  induction tasks as [|r tasks (IH1 & IH2 & IH3)].
  { split; [|split]; [| by intros vals [= <-] | done].
    split; [constructor | by exists []]. }
  simpl. destruct r as [a|e]; simpl.
  - destruct (_filter_futures tasks) as [rest|e'] eqn:Hrest; simpl.
    + split; [|split]; [| |done].
      * split; [|by eexists]. intros _. constructor; [done|].
        apply IH1. by eexists.
      * intros vals [= <-]. f_equal. exact (IH2 rest eq_refl).
    + split; [|split]; [|done|].
      * split; [by intros [? ?]|]. intros [_ Hall]%Forall_cons.
        apply IH1 in Hall as [? ?]. done.
      * intros e [= <-]. destruct (IH3 e' eq_refl). split; [done|]. by right.
  - destruct (is_Exception e) eqn:He.
    + split; [|split].
      * rewrite IH1. split.
        -- intros Hall. constructor; [by intros ? [= <-] | done].
        -- by intros [_ ?]%Forall_cons.
      * intros vals Hvals. csimpl. by apply IH2.
      * intros e' He'. destruct (IH3 e' He'). split; [done|]. by right.
    + split; [|split]; [|done|].
      * split; [by intros [? ?]|]. intros [Hhead _]%Forall_cons.
        specialize (Hhead e eq_refl). congruence.
      * intros e' [= <-]. split; [done|]. by left.
Qed.

(** X12.  Draining two lists of futures one after the other is draining
    their concatenation, and draining futures that all returned gives
    back their values. *)
Theorem _filter_futures_app {A} (tasks tasks' : list (result A))
    (vals : list A) :
  _filter_futures (tasks ++ tasks') =
    rbind (_filter_futures tasks) (λ a,
    rbind (_filter_futures tasks') (λ b, Return (a ++ b))) ∧
  _filter_futures (Return <$> vals) = Return vals.
Proof.
  split.
  - induction tasks as [|r tasks IH]; simpl.
    + by destruct (_filter_futures tasks').
    + destruct r as [a|e]; [|by destruct (is_Exception e)].
      rewrite IH. destruct (_filter_futures tasks) as [x|]; simpl; [|done].
      by destruct (_filter_futures tasks').
  - induction vals as [|v vals IH]; csimpl; [done|]. by rewrite IH.
Qed.

(** X13.  When the unpacking [values, dates = zip(...)] returns, the two
    columns have the length of the collection, which is not empty, and
    pairing them again gives the collection: the value at a position
    belongs to the date at that position. *)
Theorem unpack_columns_zip {A B} (pairs : list (A * B)) (values : list A)
    (dates : list B) :
  unpack_columns pairs = Return (values, dates) →
  pairs ≠ [] ∧
  length values = length pairs ∧ length dates = length pairs ∧
  zip values dates = pairs.
Proof.
  intros Hout. assert (pairs ≠ []) as Hne by (by intros ->).
  assert (values = pairs.*1 ∧ dates = pairs.*2) as [-> ->].
  { destruct pairs as [|p pairs]; [done|]. by injection Hout as <- <-. }
  split; [done|]. rewrite !length_fmap. split; [done|]. split; [done|].
  apply zip_fst_snd.
Qed.

Lemma unpack_columns_zip_witness :
  unpack_columns [(7, "2019m0115"%string); (9, "2020m0115"%string)]
    = Return ([7; 9], ["2019m0115"; "2020m0115"]%string) ∧
  zip [7; 9] ["2019m0115"; "2020m0115"]%string
    = [(7, "2019m0115"%string); (9, "2020m0115"%string)].
Proof.
  split; [reflexivity|].
  apply (unpack_columns_zip
           [(7, "2019m0115"%string); (9, "2020m0115"%string)]
           [7; 9] ["2019m0115"; "2020m0115"]%string eq_refl).
Defined.

(** X14.  The pairs of a batch are those of its first files followed by
    those of the others: what a file contributes does not depend on the
    files submitted after it. *)
Theorem collected_app `{RT : Runtime} (g : gmap string pyobj) (w : Window)
    (net : nat → network) (files files' : list string) :
  ∃ pairs pairs',
    collected g w net files = Return pairs ∧
    collected g w (λ i, net (length files + i)%nat) files' = Return pairs' ∧
    collected g w net (files ++ files') = Return (pairs ++ pairs').
Proof.
  do 2 eexists. split; [apply collected_returned|].
  split; [apply collected_returned|].
  rewrite collected_returned. f_equal. unfold future_work.
  by rewrite imap_app, fmap_app, omap_app.
Qed.

(** ** The runs of a cell *)

Section MorePoolFacts.
Context {A : Type} (max_workers : nat) (call : nat → string → traced A).
Import ThreadPool.

Local Abbreviation step := (step (A:=A) max_workers call).
Local Abbreviation reachable := (reachable (A:=A) max_workers call).

Lemma remaining_zero (σ : pool A) : remaining σ = 0%nat ↔ all_done σ.
Proof.
  unfold remaining, all_done. split.
  - intros Hzero.
    assert (length (todo σ) = 0%nat) as Htodo by lia.
    assert (sum_list_with weight (futures σ) = 0%nat) as Hsum by lia.
    split; [by destruct (todo σ)|].
    clear -Hsum. induction (futures σ) as [|[file s] fs IH]; [constructor|].
    simpl in Hsum. constructor; [|apply IH; lia].
    destruct s; unfold weight in Hsum; simpl in *; [lia | lia | done].
  - intros [-> Hfin]. simpl.
    induction Hfin as [|[file s] fs Hs _ IH]; [done|].
    simpl in *. by destruct s.
Qed.

Lemma run_from_init (files : list string) (n : nat) (σ : pool A) :
  nsteps step n (init files) σ →
  (3 * length files = n + remaining σ)%nat.
Proof.
  intros Hrun%run_length. unfold remaining in Hrun at 1. simpl in Hrun. lia.
Qed.

(** X15.  A run of a cell takes at most three steps for each file, a
    submission, a start and an end; it has left its [with] block exactly
    when it has taken them all.  With at least one worker a run is never
    stuck before that, and a run to the end exists. *)
Theorem pool_run_length (files : list string) :
  (∀ n σ, nsteps step n (init files) σ →
     (n ≤ 3 * length files)%nat ∧
     (all_done σ ↔ n = (3 * length files)%nat)) ∧
  ((0 < max_workers)%nat →
   (∀ σ, reachable files σ → all_done σ ∨ ∃ σ', step σ σ') ∧
   ∃ σ, nsteps step (3 * length files) (init files) σ ∧ all_done σ).
Proof.
  split.
  - intros n σ Hrun. pose proof (run_from_init _ _ _ Hrun) as Hn.
    split; [lia|]. rewrite <- remaining_zero. lia.
  - intros Hpos. split.
    + intros σ Hσ. apply (pool_progress max_workers call).
      by apply (consistent_reachable max_workers call files).
    + destruct (run_exists max_workers call files (init files) Hpos
                  (rtc_refl _ _)) as (σ & _ & [n Hrun]%rtc_nsteps_1 & Hdone).
      exists σ. split; [|done].
      pose proof (run_from_init _ _ _ Hrun) as Hn.
      apply remaining_zero in Hdone.
      by replace (3 * length files)%nat with n by lia.
Qed.

(** X16.  When the [with] block is left every future has completed once
    and only once: [as_completed] has yielded each position of
    [future_work] exactly one time, so the progress bar has advanced
    [len(future_work)] times, its [total]. *)
Theorem as_completed_once (files : list string) (σ : pool A) :
  reachable files σ → all_done σ →
  completed σ ≡ₚ seq 0 (length files) ∧
  NoDup (completed σ) ∧
  length (completed σ) = length files.
Proof.
  intros Hσ Hdone. pose proof (all_done_completed _ _ _ _ Hσ Hdone) as Hperm.
  split; [done|]. split.
  - rewrite Hperm. apply NoDup_seq.
  - by rewrite Hperm, length_seq.
Qed.

End MorePoolFacts.

Lemma pool_one_done_reachable :
  ThreadPool.reachable max_workers_files_15
    (work (RT := stub_runtime) notebook_globals bounds net_ok)
    [file_2019] pool_one_done.
Proof.
  eapply rtc_r; [exact pool_one_running_reachable|].
  exact (ThreadPool.step_finish _ _ pool_one_running 0%nat 0%nat file_2019
           eq_refl eq_refl).
Defined.

Lemma as_completed_once_witness :
  ThreadPool.completed pool_one_done ≡ₚ seq 0 (length [file_2019]) ∧
  NoDup (ThreadPool.completed pool_one_done) ∧
  length (ThreadPool.completed pool_one_done) = length [file_2019].
Proof.
  apply (as_completed_once _ _ _ _ pool_one_done_reachable).
  split; [reflexivity|]. repeat constructor.
Defined.

(** X17.  Whatever the order in which the calls of a run complete, the
    requests the run has sent are the crop requests of the files, each
    once, in some order, and what the cell leaves is what the calls give
    when run one after the other. *)
Theorem cell_run_requests `{RT : Runtime} (max_workers : nat)
    (g : gmap string pyobj) (w : Window) (net : nat → network)
    (files : list string) (sent : list Request)
    (out : result (list sample * list string)) :
  cell_run max_workers g w net files sent out →
  sent ≡ₚ crop_request w <$> files ∧
  length sent = length files ∧
  out = (time_series g w net files).2.
Proof.
  intros [-> Hsent]%cell_run_time_series. rewrite time_series_sent in Hsent.
  split; [done|]. split; [|done]. by rewrite Hsent, length_fmap.
Qed.

Lemma cell_run_requests_witness :
  ∃ sent,
    sent ≡ₚ crop_request (RT := stub_runtime) bounds <$>
              [file_2019; file_2020] ∧
    length sent = length [file_2019; file_2020].
Proof.
  destruct (cell_run_exists (RT := stub_runtime) max_workers_files
              notebook_globals bounds net_ok [file_2019; file_2020])
    as [sent Hrun]; [unfold max_workers_files; lia|].
  exists sent.
  destruct (cell_run_requests _ _ _ _ _ _ _ Hrun) as (H1 & H2 & _).
  exact (conj H1 H2).
Defined.

(** ** The cell as written *)

(** X18.  Run in a fresh kernel, a time-series cell ends the same way for
    every list of files and every network: it sends the crop request of
    each file and then raises [ValueError] at the unpacking, no pair
    having been collected. *)
Theorem fresh_kernel_cell_raises `{RT : Runtime} (w : Window)
    (net : nat → network) (files : list string) :
  time_series notebook_globals w net files
  = (crop_request w <$> files, Raise ValueError).
Proof.
  rewrite <- time_series_sent with (g := notebook_globals) (net := net).
  unfold time_series. simpl. by rewrite collected_fresh_kernel.
Qed.

(** ** The files of the mosaic *)

Lemma ascii_compare_refl (a : ascii) : Ascii.compare a a = Eq.
Proof. unfold Ascii.compare. apply N.compare_refl. Qed.

Lemma string_compare_lt_trans (s1 s2 s3 : string) :
  String.compare s1 s2 = Lt → String.compare s2 s3 = Lt →
  String.compare s1 s3 = Lt.
Proof.
  revert s2 s3. induction s1 as [|a s1 IH]; intros [|b s2] [|c s3]; simpl;
    try done.
  destruct (Ascii.compare a b) eqn:Hab; [| |done];
    destruct (Ascii.compare b c) eqn:Hbc; try done.
  - apply Ascii.compare_eq_iff in Hab, Hbc. subst.
    rewrite ascii_compare_refl. apply IH.
  - apply Ascii.compare_eq_iff in Hab. subst. by rewrite Hbc.
  - apply Ascii.compare_eq_iff in Hbc. subst. by rewrite Hab.
  - intros _ _. unfold Ascii.compare in *.
    rewrite N.compare_lt_iff in *.
    assert (N_of_ascii a < N_of_ascii c)%N as Hac by lia.
    apply N.compare_lt_iff in Hac. by rewrite Hac.
Qed.

Lemma string_leb_trans (s1 s2 s3 : string) :
  String.leb s1 s2 = true → String.leb s2 s3 = true → String.leb s1 s3 = true.
Proof.
  intros H12 H23. unfold String.leb in *.
  destruct (String.compare s1 s2) eqn:E12; [| |done].
  - apply String.compare_eq_iff in E12. by subst.
  - destruct (String.compare s2 s3) eqn:E23; [| |done].
    + apply String.compare_eq_iff in E23. subst. by rewrite E12.
    + by rewrite (string_compare_lt_trans _ _ _ E12 E23).
Qed.

Lemma string_leb_refl (s : string) : String.leb s s = true.
Proof. by destruct (String.leb_total s s). Qed.

Lemma insert_by_date_perm (x : Mosaic.meta) (l : list Mosaic.meta) :
  Mosaic.insert_by_date x l ≡ₚ x :: l.
Proof.
  induction l as [|y l IH]; simpl; [done|].
  destruct (String.leb _ _); [done|]. rewrite IH. apply Permutation_swap.
Qed.

Lemma insert_by_date_sorted (x : Mosaic.meta) (l : list Mosaic.meta) :
  StronglySorted Mosaic.date_le l → StronglySorted Mosaic.date_le (Mosaic.insert_by_date x l).
Proof.
  induction 1 as [|y l Hl IH Hy]; simpl; [by repeat constructor|].
  destruct (String.leb (Mosaic.date x) (Mosaic.date y)) eqn:Hxy.
  - constructor; [by constructor|]. constructor; [done|].
    eapply Forall_impl; [exact Hy|]. intros z Hz.
    by eapply string_leb_trans.
  - constructor; [done|]. rewrite insert_by_date_perm.
    constructor; [|done]. unfold Mosaic.date_le.
    by destruct (String.leb_total (Mosaic.date x) (Mosaic.date y)); [congruence|].
Qed.

Lemma insert_by_date_filter (x : Mosaic.meta) (l : list Mosaic.meta)
    (d : string) :
  filter (λ m, Mosaic.date m = d) (Mosaic.insert_by_date x l)
  = filter (λ m, Mosaic.date m = d) (x :: l).
Proof.
  induction l as [|y l IH]; simpl; [done|].
  destruct (String.leb (Mosaic.date x) (Mosaic.date y)) eqn:Hxy; [done|].
  rewrite filter_cons, IH, !filter_cons.
  destruct (decide (Mosaic.date y = d)) as [Hy|]; [|done].
  destruct (decide (Mosaic.date x = d)) as [Hx|]; [|done].
  rewrite Hx, Hy, string_leb_refl in Hxy. done.
Qed.

Lemma sorted_by_date_perm (l : list Mosaic.meta) :
  Mosaic.sorted_by_date l ≡ₚ l.
Proof.
  induction l as [|x l IH]; simpl; [done|].
  by rewrite insert_by_date_perm, IH.
Qed.

Lemma sorted_by_date_sorted (l : list Mosaic.meta) :
  StronglySorted Mosaic.date_le (Mosaic.sorted_by_date l).
Proof.
  induction l as [|x l IH]; simpl; [constructor|].
  by apply insert_by_date_sorted.
Qed.

(** X19.  [sorted(files, key=date)] keeps the dicts it is given, puts
    them in the order of their dates, and is stable: dicts of one date
    stay in the order they had. *)
Theorem sorted_by_date_stable (l : list Mosaic.meta) :
  Mosaic.sorted_by_date l ≡ₚ l ∧
  StronglySorted Mosaic.date_le (Mosaic.sorted_by_date l) ∧
  ∀ d, filter (λ m, Mosaic.date m = d) (Mosaic.sorted_by_date l)
       = filter (λ m, Mosaic.date m = d) l.
Proof.
  split; [apply sorted_by_date_perm|]. split; [apply sorted_by_date_sorted|].
  intros d. induction l as [|x l IH]; simpl; [done|].
  rewrite insert_by_date_filter, !filter_cons. by rewrite IH.
Qed.


Lemma py_map_returns {A B} (f : A → result B) (l : list A) (ys : list B) :
  py_map f l = Return ys → Forall2 (λ x y, f x = Return y) l ys.
Proof.
  revert ys. induction l as [|x l IH]; simpl; intros ys.
  - intros [= <-]. constructor.
  - destruct (f x) as [y|] eqn:Hx; simpl; [|done].
    destruct (py_map f l) as [rest|]; simpl; [|done].
    intros [= <-]. constructor; [done | by apply IH].
Qed.

Lemma py_map_raises {A B} (f : A → result B) (l : list A) (e : exn) :
  py_map f l = Raise e → ∃ x, x ∈ l ∧ f x = Raise e.
Proof.
  induction l as [|x l IH]; simpl; [done|].
  destruct (f x) as [y|e'] eqn:Hx; simpl.
  - destruct (py_map f l) as [rest|e'']; simpl; [done|].
    intros [= <-]. destruct (IH eq_refl) as (x' & ? & ?).
    exists x'. split; [by right | done].
  - intros [= <-]. exists x. split; [by left | done].
Qed.

Lemma py_map_all {A B} (f : A → result B) (l : list A) :
  Forall (λ x, ∃ y, f x = Return y) l → ∃ ys, py_map f l = Return ys.
Proof.
  induction 1 as [|x l [y Hy] _ [ys IH]]; simpl; [by eexists|].
  rewrite Hy, IH. simpl. by eexists.
Qed.

Lemma part_outcome (l : string) (i : nat) :
  Mosaic.part l i =
  match str_split "/" l !! i with
  | Some x => Return x
  | None => Raise IndexError
  end.
Proof. done. Qed.

Lemma file_meta_returns (l : string) (m : Mosaic.meta) :
  Mosaic.file_meta l = Return m →
  Mosaic.path m = l ∧
  str_split "/" l !! 6%nat = Some (Mosaic.date m) ∧
  ((λ t, [t]) <$> str_split "/" l !! 5%nat) = Some (Mosaic.tags m) ∧
  str_split "/" l !! 7%nat = Some (Mosaic.sceneid m) ∧
  str_split "/" l !! 4%nat = Some (Mosaic.event m) ∧
  Mosaic.preview m =
    "https://api.discover.digitalglobe.com/show?id=" +:+ Mosaic.sceneid m +:+
    "&f=jpeg".
Proof.
  unfold Mosaic.file_meta. rewrite !part_outcome.
  destruct (_ !! 6%nat) as [d|]; simpl; [|done].
  destruct (_ !! 5%nat) as [t|]; simpl; [|done].
  destruct (_ !! 7%nat) as [s|]; simpl; [|done].
  destruct (_ !! 4%nat) as [e|]; simpl; [|done].
  by intros [= <-].
Qed.

Lemma file_meta_raises (l : string) (e : exn) :
  Mosaic.file_meta l = Raise e →
  e = IndexError ∧ (length (str_split "/" l) < 8)%nat.
Proof.
  unfold Mosaic.file_meta. rewrite !part_outcome.
  destruct (_ !! 6%nat) as [d|] eqn:H6; simpl.
  - destruct (_ !! 5%nat) as [t|] eqn:H5; simpl.
    + destruct (_ !! 7%nat) as [s|] eqn:H7; simpl.
      * destruct (_ !! 4%nat) as [x|] eqn:H4; simpl; [done|].
        apply lookup_ge_None in H4. apply lookup_lt_Some in H6. lia.
      * intros [= <-]. apply lookup_ge_None in H7. split; [done | lia].
    + apply lookup_ge_None in H5. apply lookup_lt_Some in H6. lia.
  - intros [= <-]. apply lookup_ge_None in H6. split; [done | lia].
Qed.

Lemma file_meta_long (l : string) :
  (8 ≤ length (str_split "/" l))%nat → ∃ m, Mosaic.file_meta l = Return m.
Proof.
  intros Hlen. destruct (Mosaic.file_meta l) as [m|e] eqn:Hm; [by eexists|].
  apply file_meta_raises in Hm as [_ ?]. lia.
Qed.

(** X20.  The cell that builds [files] returns exactly when every link
    has at least eight parts between slashes, and raises [IndexError]
    otherwise.  When it returns, the dicts are in the order of their
    dates, their paths are the links, each once, and every dict is the
    one built from its own path: its date, tag, scene and event are the
    parts 6, 5, 7 and 4 of the link. *)
Theorem mosaic_files_outcome (list_file : list string) :
  ((∃ fs, Mosaic.files list_file = Return fs) ↔
   Forall (λ l, (8 ≤ length (str_split "/" l))%nat) list_file) ∧
  (∀ e, Mosaic.files list_file = Raise e → e = IndexError) ∧
  (∀ fs, Mosaic.files list_file = Return fs →
     Mosaic.path <$> fs ≡ₚ list_file ∧
     StronglySorted Mosaic.date_le fs ∧
     Forall (λ m, Mosaic.file_meta (Mosaic.path m) = Return m) fs).
Proof.
  unfold Mosaic.files. split; [|split].
  - split.
    + intros [fs Hfs]. apply Forall_forall. intros l Hl.
      destruct (py_map Mosaic.file_meta list_file) as [ms|e] eqn:Hmap;
        [|done].
      apply py_map_returns in Hmap.
      apply list_elem_of_lookup in Hl as [i Hi].
      destruct (Forall2_lookup_l _ _ _ _ _ Hmap Hi) as (m & _ & Hm).
      destruct (decide (8 ≤ length (str_split "/" l))%nat) as [|Hshort];
        [done|].
      apply file_meta_returns in Hm as (_ & _ & _ & H7%lookup_lt_Some & _).
      lia.
    + intros Hall.
      destruct (py_map_all Mosaic.file_meta list_file) as [ms ->];
        [|by eexists].
      eapply Forall_impl; [exact Hall|]. intros l. apply file_meta_long.
  - intros e. destruct (py_map Mosaic.file_meta list_file) as [ms|e'] eqn:Hmap;
      [done|]. intros [= <-].
    apply py_map_raises in Hmap as (l & _ & Hl).
    by apply file_meta_raises in Hl as [-> _].
  - intros fs. destruct (py_map Mosaic.file_meta list_file) as [ms|e] eqn:Hmap;
      [|done]. intros [= <-]. apply py_map_returns in Hmap.
    assert (Mosaic.path <$> ms = list_file) as Hpaths.
    { clear -Hmap. induction Hmap as [|l m ls ms Hm _ IH]; [done|].
      csimpl. apply file_meta_returns in Hm as [-> _]. by rewrite IH. }
    assert (Forall (λ m, Mosaic.file_meta (Mosaic.path m) = Return m) ms)
      as Hbuilt.
    { clear -Hmap. induction Hmap as [|l m ls ms Hm _ IH]; [done|].
      constructor; [|done].
      pose proof (file_meta_returns _ _ Hm) as [-> _]. done. }
    split; [by rewrite sorted_by_date_perm, Hpaths|].
    split; [apply sorted_by_date_sorted|].
    by rewrite sorted_by_date_perm.
Qed.

Lemma StronglySorted_filter {A} (R : relation A) (P : A → Prop)
    `{∀ x, Decision (P x)} (l : list A) :
  StronglySorted R l → StronglySorted R (filter P l).
Proof.
  induction 1 as [|x l Hl IH Hx]; [constructor|].
  rewrite filter_cons. case_decide; [|done].
  constructor; [done|]. apply Forall_forall.
  intros y [_ Hy]%list_elem_of_filter.
  rewrite Forall_forall in Hx. by apply Hx.
Qed.

(** X21.  [pre_event] and [post_event] are taken from [files] in its
    order, no dict is in both, and when [files] is in the order of the
    dates so is each of them. *)
Theorem pre_post_event_split (fs : list Mosaic.meta) :
  Mosaic.pre_event fs `sublist_of` fs ∧
  Mosaic.post_event fs `sublist_of` fs ∧
  (∀ m, m ∈ Mosaic.pre_event fs → m ∉ Mosaic.post_event fs) ∧
  (length (Mosaic.pre_event fs) + length (Mosaic.post_event fs)
   ≤ length fs)%nat ∧
  (StronglySorted Mosaic.date_le fs →
   StronglySorted Mosaic.date_le (Mosaic.pre_event fs) ∧
   StronglySorted Mosaic.date_le (Mosaic.post_event fs)).
Proof.
  unfold Mosaic.pre_event, Mosaic.post_event.
  split; [apply sublist_filter|]. split; [apply sublist_filter|].
  split; [|split].
  - intros m [Hpre _]%list_elem_of_filter [Hpost _]%list_elem_of_filter.
    congruence.
  - induction fs as [|m fs IH]; [done|]. rewrite !filter_cons.
    destruct (decide (Mosaic.tags m = ["pre-event"%string])) as [Hpre|];
      destruct (decide (Mosaic.tags m = ["post-event"%string])) as [Hpost|];
      simpl; try lia. congruence.
  - intros Hsorted. split; by apply StronglySorted_filter.
Qed.

Lemma worker_truthy (cog_bounds : string → result (Q * Q * Q * Q))
    (m : Mosaic.meta) :
  Mosaic.truthy (Mosaic.worker cog_bounds m) = true ↔
  is_Some (returned (cog_bounds (Mosaic.path m))).
Proof.
  unfold Mosaic.worker.
  destruct (cog_bounds (Mosaic.path m)) as [[[[b0 b1] b2] b3]|e]; simpl.
  - split; [by eexists | done].
  - split; [done | by intros [? ?]].
Qed.

Lemma worker_properties (cog_bounds : string → result (Q * Q * Q * Q))
    (m : Mosaic.meta) :
  Mosaic.truthy (Mosaic.worker cog_bounds m) = true →
  Mosaic.properties_of (Mosaic.worker cog_bounds m) = Some m.
Proof.
  unfold Mosaic.worker.
  by destruct (cog_bounds (Mosaic.path m)) as [[[[b0 b1] b2] b3]|e].
Qed.

(** X22.  [worker] gives the empty dict exactly when reading the bounds
    raised, whatever was raised.  The responses of the cell are the
    features of the files whose bounds could be read, in the order of
    [post_event], each with the dict of its file as properties and with
    a closed ring through the four corners of its bounds; a file that
    cannot be read is left out and the others are kept. *)
Theorem responses_outcome (cog_bounds : string → result (Q * Q * Q * Q))
    (post : list Mosaic.meta) :
  (∀ m, Mosaic.worker cog_bounds m = Mosaic.EmptyDict ↔
        raises (cog_bounds (Mosaic.path m))) ∧
  omap Mosaic.properties_of (Mosaic.responses cog_bounds post)
    = filter (λ m, is_Some (returned (cog_bounds (Mosaic.path m)))) post ∧
  Forall (λ r, ∃ b0 b1 b2 b3 m,
            cog_bounds (Mosaic.path m) = Return (b0, b1, b2, b3) ∧
            r = Mosaic.Feature
                  [(b0, b3); (b0, b1); (b2, b1); (b2, b3); (b0, b3)] m)
    (Mosaic.responses cog_bounds post) ∧
  (length (Mosaic.responses cog_bounds post) ≤ length post)%nat.
Proof.
  split; [|split; [|split]].
  - intros m. unfold Mosaic.worker.
    destruct (cog_bounds (Mosaic.path m)) as [[[[b0 b1] b2] b3]|e].
    + split; [done | by intros [? ?]].
    + split; [by exists e | done].
  - unfold Mosaic.responses. induction post as [|m post IH]; [done|].
    csimpl. rewrite !filter_cons.
    pose proof (worker_truthy cog_bounds m) as Htruthy.
    pose proof (worker_properties cog_bounds m) as Hprops.
    destruct (decide (Mosaic.truthy (Mosaic.worker cog_bounds m) = true))
      as [Ht|Ht];
      destruct (decide (is_Some (returned (cog_bounds (Mosaic.path m)))))
        as [Hs|Hs]; csimpl.
    + by rewrite (Hprops Ht), IH.
    + by apply Htruthy in Ht.
    + by apply Htruthy in Hs.
    + done.
  - unfold Mosaic.responses. apply Forall_forall.
    intros r [Htrue (m & -> & _)%list_elem_of_fmap]%list_elem_of_filter.
    unfold Mosaic.worker in *.
    destruct (cog_bounds (Mosaic.path m)) as [[[[b0 b1] b2] b3]|e] eqn:Hb;
      [|done].
    by exists b0, b1, b2, b3, m.
  - unfold Mosaic.responses. etrans; [apply length_filter|].
    by rewrite length_fmap.
Qed.
